(** * ID generation benchmark (ts-experiments/src/id-caching.ts)

    A shallow embedding of the TypeScript program and the properties
    established about it.

    Conventions of the embedding.
    - A JavaScript [number] that holds a measurement is an IEEE 754 binary64
      value: Rocq's primitive [float], whose operations are the ones the
      JavaScript engine performs.  Loop counters, trial counts, lengths and
      indices are taken to be integral and are kept in [Z] / [nat].
    - A JavaScript array is a [list] in index order: [push] appends at the
      end, [pop] removes the last element and yields [undefined] ([None]) on
      the empty array.
    - The outside world is explicit: the values the [uuid] package hands out
      and the readings of [performance.now()] are two streams indexed by the
      number of calls made so far, and the console is the list of what was
      written to it.
    - [regenerateIdPool] is declared [async] but contains no [await]; the body
      of such a function runs to completion inside the call, so the call is
      an ordinary state transformer followed by a discarded promise.
    - An uncaught exception is the [Throw] case of [completion]. *)

From Stdlib Require Import ZArith List String Ascii Bool Lia PeanoNat Finite.
From Stdlib Require Import PrimFloat FloatOps FloatAxioms SpecFloat Uint63.
From Stdlib Require Import DecimalString DecimalNat DecimalN.
Import ListNotations.

Set Implicit Arguments.

(** ** JavaScript arrays *)

Definition Array_push {A} (a : list A) (x : A) : list A := a ++ [x].

Definition Array_pop {A} (a : list A) : option A * list A :=
  match rev a with
  | [] => (None, [])
  | x :: r => (Some x, rev r)
  end.

(** [a[i]]: [undefined] out of range. *)
Definition Array_get {A} (a : list A) (i : Z) : option A :=
  if (i <? 0)%Z then None else nth_error a (Z.to_nat i).

(** [a.slice(s, e)], with the clamping of negative and oversized indices. *)
Definition Array_slice {A} (a : list A) (s e : Z) : list A :=
  let len := Z.of_nat (List.length a) in
  let k := if (s <? 0)%Z then Z.max (len + s) 0 else Z.min s len in
  let fin := if (e <? 0)%Z then Z.max (len + e) 0 else Z.min e len in
  firstn (Z.to_nat (fin - k)) (skipn (Z.to_nat k) a).

(** [for (let i = 0; i < bound; i++) body], for a body that assigns neither
    [i] nor [bound]. *)
Fixpoint for_from {S} (n : nat) (i : Z) (body : Z -> S -> S) (s : S) : S :=
  match n with
  | O => s
  | S n' => for_from n' (i + 1)%Z body (body i s)
  end.

Definition for_lt {S} (bound : Z) (body : Z -> S -> S) (s : S) : S :=
  for_from (Z.to_nat bound) 0%Z body s.

(** ** Completions *)

Inductive JsError : Type :=
| TypeError (msg : string).

Inductive completion (A : Type) : Type :=
| Normal (a : A)
| Throw (e : JsError).
Arguments Normal {A} a.
Arguments Throw {A} e.

Definition bind {A B} (c : completion A) (k : A -> completion B) : completion B :=
  match c with
  | Normal a => k a
  | Throw e => Throw e
  end.

Notation "x <- c ;; k" := (bind c (fun x => k))
  (at level 61, c at next level, right associativity).

Fixpoint for_from_c {S} (n : nat) (i : Z) (body : Z -> S -> completion S) (s : S)
  : completion S :=
  match n with
  | O => Normal s
  | S n' => s' <- body i s ;; for_from_c n' (i + 1)%Z body s'
  end.

Definition for_lt_c {S} (bound : Z) (body : Z -> S -> completion S) (s : S)
  : completion S :=
  for_from_c (Z.to_nat bound) 0%Z body s.

(** ** The world *)

(** One row of the object array handed to [console.table]. *)
Record Row : Type := {
  Trial : Z;
  Normal_ID_Generation : string;
  Cached_ID_Generation : string;
  Difference : string
  }.

Inductive ConsoleEvent : Type :=
| console_log (s : string)
| console_table (t : list Row).

Record World : Type := {
  uuid_calls : nat;
  clock_reads : nat;
  console : list ConsoleEvent
  }.

Definition advance_uuid (n : nat) (w : World) : World :=
  {| uuid_calls := uuid_calls w + n;
     clock_reads := clock_reads w;
     console := console w |}.

Definition advance_clock (n : nat) (w : World) : World :=
  {| uuid_calls := uuid_calls w;
     clock_reads := clock_reads w + n;
     console := console w |}.

Definition write_console (e : ConsoleEvent) (w : World) : World :=
  {| uuid_calls := uuid_calls w;
     clock_reads := clock_reads w;
     console := console w ++ [e] |}.

(** The [IdGenerator] interface: one method, which may change the receiver
    and the world. *)
Class IdGenerator (S : Type) : Type := {
  generateId : S -> World -> string * S * World
  }.

Record CachedIdGenerator : Type := {
  ID_POOL_SIZE : Z;
  idPool : list string
  }.

Definition set_idPool (this : CachedIdGenerator) (p : list string) : CachedIdGenerator :=
  {| ID_POOL_SIZE := ID_POOL_SIZE this; idPool := p |}.

(** ** Numbers *)

(** The number of an array length or of a small integer literal. *)
Definition Number_of_nat (n : nat) : float :=
  of_uint63 (Uint63.of_Z (Z.of_nat n)).

(** [ToNumber] on a value that is a number or [undefined]. *)
Definition ToNumber (v : option float) : float :=
  match v with
  | Some x => x
  | None => nan
  end.

(** The integer [n] for which [n / 10^f - m * 2^e] is as close to zero as
    possible, the larger one when there are two (step 10.a of
    Number.prototype.toFixed). *)
Definition round_scaled (m : positive) (e : Z) (f : nat) : Z :=
  let p := (10 ^ Z.of_nat f)%Z in
  if (0 <=? e)%Z then (Z.pos m * 2 ^ e * p)%Z
  else ((2 * Z.pos m * p + 2 ^ (- e)) / 2 ^ (- e + 1))%Z.

(** Whether [m * 2^e >= 10^21]. *)
Definition at_least_1e21 (m : positive) (e : Z) : bool :=
  if (0 <=? e)%Z then (10 ^ 21 <=? Z.pos m * 2 ^ e)%Z
  else (10 ^ 21 * 2 ^ (- e) <=? Z.pos m)%Z.

Definition decimal_digits (n : Z) : string :=
  NilEmpty.string_of_uint (N.to_uint (Z.to_N n)).

Fixpoint zeros (k : nat) : string :=
  match k with
  | O => EmptyString
  | S k' => String "0" (zeros k')
  end.

(** Steps 10.b-10.d of toFixed: the digits of [n] with a decimal point
    before the last [f] of them, padded with zeros on the left. *)
Definition fixed_digits (n : Z) (f : nat) : string :=
  let m := decimal_digits n in
  match f with
  | O => m
  | _ =>
      let k := String.length m in
      let m := if (k <=? f)%nat then (zeros (f + 1 - k) ++ m)%string else m in
      let k := String.length m in
      (substring 0 (k - f) m ++ "." ++ substring (k - f) f m)%string
  end.

Section ToFixed.

(** Number::toString of ECMAScript, which toFixed falls back to for values
    of magnitude at least [10^21]. *)
Variable Number_toString : float -> string.

(** [x.toFixed(f)] for [0 <= f <= 100]. *)
Definition Number_toFixed (x : float) (f : nat) : string :=
  match Prim2SF x with
  | S754_nan => "NaN"%string
  | S754_infinity s => if s then "-Infinity"%string else "Infinity"%string
  | S754_zero _ => fixed_digits 0 f
  | S754_finite s m e =>
      ((if s then "-" else "") ++
       (if at_least_1e21 m e then Number_toString (abs x)
        else fixed_digits (round_scaled m e f) f))%string
  end.

(** [v.toFixed(f)] where [v] may be [undefined]. *)
Definition method_toFixed (v : option float) (f : nat) : completion string :=
  match v with
  | Some x => Normal (Number_toFixed x f)
  | None =>
      Throw (TypeError "Cannot read properties of undefined (reading 'toFixed')")
  end.

End ToFixed.

(** ** Streams used to exercise the program on concrete inputs *)

Definition sample_uuid (n : nat) : string :=
  ("id-" ++ NilEmpty.string_of_uint (Nat.to_uint n))%string.

(** A clock that advances one millisecond per reading. *)
Definition sample_clock (n : nat) : float := Number_of_nat n.

(** A stand-in for Number::toString; no value used below reaches it. *)
Definition sample_toString (x : float) : string := "1e+21"%string.

Definition world0 : World :=
  {| uuid_calls := 0; clock_reads := 0; console := [] |}.

Section Program.

(** [uuid_stream n] is the value of the [n]-th call of [uuidv4()] in this
    execution; [clock_stream n] is the [n]-th reading of
    [performance.now()], in milliseconds. *)
Variable uuid_stream : nat -> string.
Variable clock_stream : nat -> float.
Variable Number_toString : float -> string.

Definition uuidv4 (w : World) : string * World :=
  (uuid_stream (uuid_calls w), advance_uuid 1 w).

Definition performance_now (w : World) : float * World :=
  (clock_stream (clock_reads w), advance_clock 1 w).

(** *** class NormalIdGenerator *)

Definition NormalIdGenerator_generateId (this : unit) (w : World)
  : string * unit * World :=
  let '(id, w) := uuidv4 w in (id, this, w).

(** *** class CachedIdGenerator *)

Definition CachedIdGenerator_regenerateIdPool (this : CachedIdGenerator) (w : World)
  : CachedIdGenerator * World :=
  let this := set_idPool this [] in
  for_lt (ID_POOL_SIZE this)
    (fun _ '(this, w) =>
       let '(id, w) := uuidv4 w in
       (set_idPool this (Array_push (idPool this) id), w))
    (this, w).

(** The constructor, for a given initial value of the [ID_POOL_SIZE]
    field. *)
Definition CachedIdGenerator_init (size : Z) (w : World) : CachedIdGenerator * World :=
  let this := {| ID_POOL_SIZE := size; idPool := [] |} in
  CachedIdGenerator_regenerateIdPool this w.

(** [new CachedIdGenerator()]: the field initialiser is [1000000]. *)
Definition CachedIdGenerator_new (w : World) : CachedIdGenerator * World :=
  CachedIdGenerator_init 1000000 w.

Definition CachedIdGenerator_generateId (this : CachedIdGenerator) (w : World)
  : string * CachedIdGenerator * World :=
  let '(id, rest) := Array_pop (idPool this) in
  let this := set_idPool this rest in
  let fallback :=
    let '(this, w) := CachedIdGenerator_regenerateIdPool this w in
    let '(fresh, w) := uuidv4 w in
    (fresh, this, w) in
  match id with
  | None => fallback
  | Some s => if (s =? "")%string then fallback else (s, this, w)
  end.

#[local] Instance NormalIdGenerator_IdGenerator : IdGenerator unit :=
  {| generateId := NormalIdGenerator_generateId |}.

#[local] Instance CachedIdGenerator_IdGenerator : IdGenerator CachedIdGenerator :=
  {| generateId := CachedIdGenerator_generateId |}.

(** *** The benchmark *)

Definition ID_COUNT : Z := 100000.
Definition MICROSECONDS_CONVERSION : float := 1000%float.

(** The body of [runTrials], with the module constant [ID_COUNT] as the
    argument [id_count]. *)
Definition runTrials_with (id_count : Z) {S} {G : IdGenerator S}
    (idGenerator : S) (trials : Z) (w : World) : list float * S * World :=
  let '(times, idGenerator, w) :=
    for_lt trials
      (fun _ st =>
         for_lt id_count
           (fun _ '(times, idGenerator, w) =>
              let '(idStartTime, w) := performance_now w in
              let '(_, idGenerator, w) := generateId idGenerator w in
              let '(idEndTime, w) := performance_now w in
              (Array_push times
                 ((idEndTime - idStartTime) * MICROSECONDS_CONVERSION)%float,
               idGenerator, w))
           st)
      ([], idGenerator, w) in
  let averageTimes :=
    for_lt trials
      (fun i averageTimes =>
         let trialTimes :=
           Array_slice times (i * id_count) ((i + 1) * id_count) in
         let averageTime :=
           (fold_left (fun a b => a + b) trialTimes 0
            / Number_of_nat (List.length trialTimes))%float in
         Array_push averageTimes averageTime)
      [] in
  (averageTimes, idGenerator, w).

Definition runTrials {S} {G : IdGenerator S}
    (idGenerator : S) (trials : Z) (w : World) : list float * S * World :=
  runTrials_with ID_COUNT idGenerator trials w.

Definition differenceLabel (difference : float) : string :=
  if (1 <? difference)%float
  then (Number_toFixed Number_toString difference 2 ++ "x faster")%string
  else (Number_toFixed Number_toString (1 / difference)%float 2 ++ "x slower")%string.

Definition printComparisonTable (normalTimes cachedTimes : list float) (w : World)
  : completion World :=
  table <-
    for_lt_c (Z.of_nat (List.length normalTimes))
      (fun i table =>
         let normalTime := Array_get normalTimes i in
         let cachedTime := Array_get cachedTimes i in
         let difference := (ToNumber normalTime / ToNumber cachedTime)%float in
         let label := differenceLabel difference in
         normalText <- method_toFixed Number_toString normalTime 2 ;;
         cachedText <- method_toFixed Number_toString cachedTime 2 ;;
         Normal
           (Array_push table
              {| Trial := i + 1;
                 Normal_ID_Generation := (normalText ++ "µs")%string;
                 Cached_ID_Generation := (cachedText ++ "µs")%string;
                 Difference := label |}))
      [] ;;
  Normal (write_console (console_table table) w).

Definition runExperiment (trials : Z) (w : World) : completion World :=
  let normalIdGenerator := tt in
  let (cachedIdGenerator, w) := CachedIdGenerator_new w in
  let w :=
    write_console (console_log "Running trials for Normal ID generation...") w in
  let '(normalTimes, _, w) :=
    runTrials (G := NormalIdGenerator_IdGenerator) normalIdGenerator trials w in
  let w :=
    write_console (console_log "Running trials for Cached ID generation...") w in
  let '(cachedTimes, _, w) :=
    runTrials (G := CachedIdGenerator_IdGenerator) cachedIdGenerator trials w in
  printComparisonTable normalTimes cachedTimes w.

(** *** Vocabulary of the statements *)

(** [n] consecutive calls of [generateId], with the identifiers returned,
    in call order. *)
Fixpoint call_generateId {S} {G : IdGenerator S} (n : nat) (g : S) (w : World)
  : list string * S * World :=
  match n with
  | O => ([], g, w)
  | S n' =>
      let '(id, g, w) := generateId g w in
      let '(ids, g, w) := call_generateId n' g w in
      (id :: ids, g, w)
  end.

(** The states a [CachedIdGenerator] object can be in: the one the
    constructor leaves, and those reached from it by calls of [generateId].
    [idPool] is private, so whatever else the program does between two
    calls changes the world only. *)
Inductive reachable : CachedIdGenerator * World -> Prop :=
| reach_new w :
    reachable (CachedIdGenerator_new w)
| reach_generateId this w :
    reachable (this, w) ->
    reachable (let '(_, this', w') := CachedIdGenerator_generateId this w in
               (this', w'))
| reach_world this w w' :
    reachable (this, w) -> reachable (this, w').

(** The pool [regenerateIdPool] builds when [uuidv4] has been called [k]
    times before and the pool size is [size]. *)
Definition fresh_pool (k : nat) (size : Z) : list string :=
  map uuid_stream (seq k (Z.to_nat size)).

(** What is assumed of the [uuid] package where a statement needs it: it
    never hands out the empty string (a UUID is 36 characters long), and
    never the same value twice. *)
Definition uuid_nonempty : Prop := forall n, uuid_stream n <> ""%string.
Definition uuid_distinct : Prop :=
  forall a b, uuid_stream a = uuid_stream b -> a = b.

(** The duration, in microseconds, of the call bracketed by clock readings
    [r] and [r + 1]: milliseconds times [MICROSECONDS_CONVERSION]. *)
Definition duration_us (r : nat) : float :=
  ((clock_stream (r + 1) - clock_stream r) * MICROSECONDS_CONVERSION)%float.

(** The durations recorded during trial [i] of a run of [N] calls per
    trial that starts when the clock has been read [r0] times: call [j] of
    trial [i] is bracketed by readings [r0 + 2 (i N + j)] and the next. *)
Definition trial_durations (r0 N i : nat) : list float :=
  map (fun j => duration_us (r0 + 2 * (i * N + j))) (seq 0 N).

(** The arithmetic mean as the program computes it: the sum, accumulated
    from the left starting at 0, divided by the number of values. *)
Definition mean (l : list float) : float :=
  (fold_left (fun a b => a + b) l 0 / Number_of_nat (List.length l))%float.

(** The runner as the specification words it.  One timed call: read the
    clock, call [generateId] once, read the clock again; the duration is the
    difference of the two readings, in milliseconds, times
    [MICROSECONDS_CONVERSION]. *)
Definition timed_next {S} {G : IdGenerator S} (g : S) (w : World)
  : float * S * World :=
  let '(t0, w) := performance_now w in
  let '(_, g, w) := generateId g w in
  let '(t1, w) := performance_now w in
  (((t1 - t0) * MICROSECONDS_CONVERSION)%float, g, w).

(** [n] timed calls, one after the other, with their durations in call
    order. *)
Fixpoint timed_calls {S} {G : IdGenerator S} (n : nat) (g : S) (w : World)
  : list float * S * World :=
  match n with
  | O => ([], g, w)
  | S n' =>
      let '(d, g, w) := timed_next g w in
      let '(ds, g, w) := timed_calls n' g w in
      (d :: ds, g, w)
  end.

(** [T] trials of [N] timed calls each, with the durations of each trial,
    in trial order. *)
Fixpoint trial_blocks {S} {G : IdGenerator S} (T N : nat) (g : S) (w : World)
  : list (list float) * S * World :=
  match T with
  | O => ([], g, w)
  | S T' =>
      let '(ds, g, w) := timed_calls N g w in
      let '(bs, g, w) := trial_blocks T' N g w in
      (ds :: bs, g, w)
  end.

(** For each of [trials] repetitions, [idsPerTrial] timed calls; the result
    for a trial is the arithmetic mean of that trial's durations. *)
Definition run_by_trials {S} {G : IdGenerator S}
    (idsPerTrial : Z) (g : S) (trials : Z) (w : World)
  : list float * S * World :=
  let '(blocks, g, w) :=
    trial_blocks (Z.to_nat trials) (Z.to_nat idsPerTrial) g w in
  (map mean blocks, g, w).

(** A generator that does not read the benchmark's clock. *)
Definition keeps_clock {S} (G : IdGenerator S) : Prop :=
  forall g w, clock_reads (snd (generateId g w)) = clock_reads w.

(** The row [printComparisonTable] builds for trial index [i] from the two
    means at that index. *)
Definition make_row (i : nat) (normalTime cachedTime : float) : Row :=
  {| Trial := Z.of_nat i + 1;
     Normal_ID_Generation :=
       (Number_toFixed Number_toString normalTime 2 ++ "µs")%string;
     Cached_ID_Generation :=
       (Number_toFixed Number_toString cachedTime 2 ++ "µs")%string;
     Difference := differenceLabel (normalTime / cachedTime)%float |}.

Definition table_rows (normalTimes cachedTimes : list float) : list Row :=
  map (fun i => make_row i (nth i normalTimes nan) (nth i cachedTimes nan))
      (seq 0 (List.length normalTimes)).

(** The relative-speed label as the specification words it: the ratio
    baseline/candidate when the baseline mean is the greater, else the
    ratio candidate/baseline. *)
Definition label_by_ratio (baseline candidate : float) : string :=
  if (candidate <? baseline)%float
  then (Number_toFixed Number_toString (baseline / candidate)%float 2
        ++ "x faster")%string
  else (Number_toFixed Number_toString (candidate / baseline)%float 2
        ++ "x slower")%string.

Definition toFixed_TypeError : JsError :=
  TypeError "Cannot read properties of undefined (reading 'toFixed')".

(** A generator whose behaviour does not depend on how often the clock has
    been read. *)
Definition clock_independent {S} (G : IdGenerator S) : Prop :=
  forall g w c,
  generateId g (advance_clock c w)
  = (fst (fst (generateId g w)), snd (fst (generateId g w)),
  advance_clock c (snd (generateId g w))).

(** The program's entry point: [runExperiment(5)]. *)
Definition main (w : World) : completion World := runExperiment 5 w.

(** What every reachable pool satisfies. *)
Definition pool_invariant (this : CachedIdGenerator) : Prop :=
  ID_POOL_SIZE this = 1000000%Z
  /\ (Z.of_nat (List.length (idPool this)) <= ID_POOL_SIZE this)%Z
  /\ Forall (fun s => s <> ""%string) (idPool this).

(** The outcome of the fallback branch of [generateId]: the pool is
    replaced by [ID_POOL_SIZE] fresh identifiers and one more identifier is
    generated and returned. *)
Definition fallback_outcome (this : CachedIdGenerator) (w : World)
  : string * CachedIdGenerator * World :=
  (uuid_stream (uuid_calls w + Z.to_nat (ID_POOL_SIZE this)),
   set_idPool this (fresh_pool (uuid_calls w) (ID_POOL_SIZE this)),
   advance_uuid (Z.to_nat (ID_POOL_SIZE this) + 1) w).

(** * Properties *)

(** ** Arrays and loops *)

Lemma Array_pop_nil {A} : Array_pop (@nil A) = (None, []).
Proof. reflexivity. Qed.

Lemma Array_pop_push {A} (a : list A) (x : A) :
  Array_pop (Array_push a x) = (Some x, a).
Proof.
  unfold Array_pop, Array_push.
  rewrite rev_app_distr. simpl. now rewrite rev_involutive.
Qed.

Lemma Array_pop_cases {A} (a : list A) :
  (a = [] /\ Array_pop a = (None, []))
  \/ (exists rest x, a = rest ++ [x] /\ Array_pop a = (Some x, rest)).
Proof.
  destruct a as [|y a'] using rev_ind.
  - left. split; reflexivity.
  - right. exists a', y. split; [reflexivity|]. apply Array_pop_push.
Qed.

Lemma advance_uuid_0 (w : World) : advance_uuid 0 w = w.
Proof. destruct w. unfold advance_uuid. simpl. now rewrite Nat.add_0_r. Qed.

Lemma advance_uuid_add (n m : nat) (w : World) :
  advance_uuid n (advance_uuid m w) = advance_uuid (m + n) w.
Proof. unfold advance_uuid. simpl. now rewrite Nat.add_assoc. Qed.

Lemma fill_loop (n : nat) :
  forall (i : Z) (this : CachedIdGenerator) (w : World),
    for_from n i
      (fun _ '(this, w) =>
         let '(id, w) := uuidv4 w in
         (set_idPool this (Array_push (idPool this) id), w))
      (this, w)
    = (set_idPool this (idPool this ++ map uuid_stream (seq (uuid_calls w) n)),
       advance_uuid n w).
Proof.
  set (body := fun (_ : Z) '(this, w) =>
                 let '(id, w) := uuidv4 w in
                 (set_idPool this (Array_push (idPool this) id), w)).
  induction n as [|n IH]; intros i this w.
  - simpl. rewrite app_nil_r, advance_uuid_0. now destruct this.
  - cbn [for_from].
    change (body i (this, w))
      with (set_idPool this (Array_push (idPool this) (uuid_stream (uuid_calls w))),
            advance_uuid 1 w).
    rewrite IH.
    unfold set_idPool, Array_push. cbn [idPool ID_POOL_SIZE advance_uuid uuid_calls].
    rewrite <- app_assoc. cbn [app seq map].
    rewrite Nat.add_1_r. f_equal.
    change (S n) with (1 + n). now rewrite advance_uuid_add.
Qed.

Lemma regenerateIdPool_eq (this : CachedIdGenerator) (w : World) :
  CachedIdGenerator_regenerateIdPool this w
  = (set_idPool this (fresh_pool (uuid_calls w) (ID_POOL_SIZE this)),
     advance_uuid (Z.to_nat (ID_POOL_SIZE this)) w).
Proof.
  unfold CachedIdGenerator_regenerateIdPool, for_lt.
  rewrite fill_loop. reflexivity.
Qed.

Lemma fresh_pool_length (k : nat) (size : Z) :
  List.length (fresh_pool k size) = Z.to_nat size.
Proof. unfold fresh_pool. now rewrite length_map, length_seq. Qed.

(** The fallback branch of [generateId]. *)
Lemma generateId_fallback (this : CachedIdGenerator) (w : World) :
  Array_pop (idPool this) = (None, [])
  \/ (exists rest, Array_pop (idPool this) = (Some ""%string, rest)) ->
  CachedIdGenerator_generateId this w = fallback_outcome this w.
Proof.
  unfold fallback_outcome.
  intros [H | [rest H]]; unfold CachedIdGenerator_generateId; rewrite H;
    cbn [String.eqb]; rewrite regenerateIdPool_eq; unfold uuidv4;
    cbn [set_idPool ID_POOL_SIZE idPool advance_uuid uuid_calls];
    rewrite advance_uuid_add; reflexivity.
Qed.

(** The pooled branch of [generateId]. *)
Lemma generateId_pooled (this : CachedIdGenerator) (w : World)
      (rest : list string) (x : string) :
  idPool this = rest ++ [x] -> x <> ""%string ->
  CachedIdGenerator_generateId this w = (x, set_idPool this rest, w).
Proof.
  intros Hp Hx. unfold CachedIdGenerator_generateId.
  rewrite Hp. change (rest ++ [x]) with (Array_push rest x).
  rewrite Array_pop_push.
  destruct (String.eqb_spec x ""); [contradiction|reflexivity].
Qed.


Lemma generateId_cases (this : CachedIdGenerator) (w : World) :
  (idPool this = [] /\ CachedIdGenerator_generateId this w = fallback_outcome this w)
  \/ (exists rest, idPool this = rest ++ [""%string]
      /\ CachedIdGenerator_generateId this w = fallback_outcome this w)
  \/ (exists rest x, idPool this = rest ++ [x] /\ x <> ""%string
      /\ CachedIdGenerator_generateId this w = (x, set_idPool this rest, w)).
Proof.
  destruct (Array_pop_cases (idPool this)) as [[He Hp] | (rest & x & He & Hp)].
  - left. split; [assumption|]. apply generateId_fallback. now left.
  - right. destruct (string_dec x "") as [-> | Hx].
    + left. exists rest. split; [assumption|].
      apply generateId_fallback. right. now exists rest.
    + right. exists rest, x. repeat split; try assumption.
      now apply generateId_pooled.
Qed.

Lemma fresh_pool_nonempty_strings (k : nat) (size : Z) :
  uuid_nonempty -> Forall (fun s => s <> ""%string) (fresh_pool k size).
Proof.
  intros Hne. unfold fresh_pool. apply Forall_forall.
  intros s Hin. apply in_map_iff in Hin. destruct Hin as (j & <- & _).
  apply Hne.
Qed.

Lemma fresh_pool_NoDup (k : nat) (size : Z) :
  uuid_distinct -> NoDup (fresh_pool k size).
Proof.
  intros Hd. unfold fresh_pool.
  apply Finite.Injective_map_NoDup; [exact Hd | apply seq_NoDup].
Qed.

Lemma fresh_pool_not_later (k : nat) (size : Z) (j : nat) :
  uuid_distinct -> k + Z.to_nat size <= j ->
  ~ In (uuid_stream j) (fresh_pool k size).
Proof.
  intros Hd Hj Hin. unfold fresh_pool in Hin.
  apply in_map_iff in Hin. destruct Hin as (i & Heq & Hi).
  apply Hd in Heq. subst i. apply in_seq in Hi. lia.
Qed.

(** Calling [generateId] once per pooled identifier empties the pool
    from its end, and touches nothing else. *)
Lemma drain_pool (size : Z) (pool : list string) (w : World) :
  Forall (fun s => s <> ""%string) pool ->
  call_generateId (G := CachedIdGenerator_IdGenerator) (List.length pool)
    {| ID_POOL_SIZE := size; idPool := pool |} w
  = (rev pool, {| ID_POOL_SIZE := size; idPool := [] |}, w).
Proof.
  induction pool as [|x rest IH] using rev_ind; intros Hall.
  - reflexivity.
  - apply Forall_app in Hall. destruct Hall as [Hrest Hx].
    inversion Hx as [|? ? Hx' _]; subst.
    rewrite length_app, Nat.add_1_r. cbn [call_generateId generateId
      CachedIdGenerator_IdGenerator].
    rewrite generateId_pooled with (rest := rest) (x := x);
      [ | reflexivity | assumption ].
    unfold set_idPool. cbn [ID_POOL_SIZE].
    rewrite (IH Hrest). rewrite rev_app_distr. reflexivity.
Qed.

Lemma reachable_invariant (st : CachedIdGenerator * World) :
  uuid_nonempty -> reachable st -> pool_invariant (fst st).
Proof.
  intros Hne Hr. induction Hr as [w | this w Hr IH | this w w' Hr IH].
  - unfold CachedIdGenerator_new, CachedIdGenerator_init.
    rewrite regenerateIdPool_eq.
    unfold pool_invariant. cbn [fst set_idPool ID_POOL_SIZE idPool].
    rewrite fresh_pool_length. repeat split; try lia.
    now apply fresh_pool_nonempty_strings.
  - cbn [fst] in IH. destruct IH as (Hsz & Hlen & Hall).
    destruct (generateId_cases this w)
      as [[_ ->] | [(rest & _ & ->) | (rest & x & Hp & Hx & ->)]];
      unfold fallback_outcome, pool_invariant;
      cbn [fst set_idPool ID_POOL_SIZE idPool].
    + rewrite fresh_pool_length. repeat split; try lia.
      now apply fresh_pool_nonempty_strings.
    + rewrite fresh_pool_length. repeat split; try lia.
      now apply fresh_pool_nonempty_strings.
    + rewrite Hp in Hlen, Hall. rewrite length_app in Hlen.
      apply Forall_app in Hall. repeat split; try tauto.
      cbn [List.length] in Hlen. lia.
  - exact IH.
Qed.

Lemma reachable_calls (n : nat) :
  forall this w, reachable (this, w) ->
    reachable
      (let '(_, this', w') :=
         call_generateId (G := CachedIdGenerator_IdGenerator) n this w in
       (this', w')).
Proof.
  induction n as [|n IH]; intros this w Hr.
  - exact Hr.
  - cbn [call_generateId generateId CachedIdGenerator_IdGenerator].
    pose proof (reach_generateId Hr) as Hs.
    destruct (CachedIdGenerator_generateId this w) as [[id this1] w1].
    specialize (IH this1 w1 Hs).
    destruct (call_generateId n this1 w1) as [[ids this2] w2].
    exact IH.
Qed.

Lemma CachedIdGenerator_new_eq (w : World) :
  CachedIdGenerator_new w
  = ({| ID_POOL_SIZE := 1000000;
        idPool := fresh_pool (uuid_calls w) 1000000 |},
     advance_uuid (Z.to_nat 1000000) w).
Proof.
  unfold CachedIdGenerator_new, CachedIdGenerator_init.
  rewrite regenerateIdPool_eq. reflexivity.
Qed.

Lemma reachable_after_new (w : World) :
  reachable ({| ID_POOL_SIZE := 1000000;
                idPool := fresh_pool (uuid_calls w) 1000000 |},
             advance_uuid (Z.to_nat 1000000) w).
Proof. rewrite <- CachedIdGenerator_new_eq. apply reach_new. Qed.

(** What follows a call that found the pool empty. *)
Lemma generateId_after_exhaustion (this : CachedIdGenerator) (w : World) :
  idPool this = [] -> (0 < ID_POOL_SIZE this)%Z -> uuid_nonempty ->
  let n := Z.to_nat (ID_POOL_SIZE this) in
  let k := uuid_calls w in
  let this1 := set_idPool this (fresh_pool k (ID_POOL_SIZE this)) in
  let w1 := advance_uuid (n + 1) w in
  CachedIdGenerator_generateId this w = (uuid_stream (k + n), this1, w1)
  /\ idPool this1 = map uuid_stream (seq k (n - 1)) ++ [uuid_stream (k + n - 1)]
  /\ CachedIdGenerator_generateId this1 w1
     = (uuid_stream (k + n - 1),
        set_idPool this (map uuid_stream (seq k (n - 1))), w1).
Proof.
  intros He Hpos Hne n k this1 w1.
  assert (Hsplit : idPool this1
                   = map uuid_stream (seq k (n - 1)) ++ [uuid_stream (k + n - 1)]).
  { subst this1. cbn [set_idPool idPool]. unfold fresh_pool. fold n.
    replace n with ((n - 1) + 1) at 1 by (subst n; lia).
    rewrite seq_app, map_app. cbn [seq map].
    do 3 f_equal. lia. }
  split; [|split].
  - rewrite generateId_fallback; [reflexivity|]. left. now rewrite He.
  - exact Hsplit.
  - rewrite generateId_pooled
      with (rest := map uuid_stream (seq k (n - 1))) (x := uuid_stream (k + n - 1));
      [ reflexivity | exact Hsplit | apply Hne ].
Qed.

(** ** The identifier pool *)

(** C1. A call of [generateId] that finds the pool empty regenerates the
    whole pool - the pool becomes the [ID_POOL_SIZE] identifiers that
    [uuidv4] produces next - and returns one further identifier, generated
    after the pool was filled; when [uuidv4] never repeats a value, the
    identifier returned is not an element of the new pool. *)
Theorem C1_empty_pool_regenerates_and_returns_fresh
    (this : CachedIdGenerator) (w : World) :
  idPool this = [] ->
  let n := Z.to_nat (ID_POOL_SIZE this) in
  let k := uuid_calls w in
  CachedIdGenerator_generateId this w
  = (uuid_stream (k + n),
     {| ID_POOL_SIZE := ID_POOL_SIZE this;
        idPool := map uuid_stream (seq k n) |},
     advance_uuid (n + 1) w)
  /\ List.length (map uuid_stream (seq k n)) = n
  /\ (uuid_distinct -> ~ In (uuid_stream (k + n)) (map uuid_stream (seq k n))).
Proof.
  intros He n k. split; [|split].
  - rewrite generateId_fallback; [reflexivity|]. left. now rewrite He.
  - now rewrite length_map, length_seq.
  - intros Hd. apply (@fresh_pool_not_later k (ID_POOL_SIZE this) (k + n) Hd).
    subst n. lia.
Qed.

(** C2 (amended). [regenerateIdPool] has no [await], so the regeneration
    started by the call that found the pool empty is complete when that call
    returns: the pool then holds [ID_POOL_SIZE] identifiers, and the very
    next call returns the last of them, popped from the regenerated pool,
    without generating anything. *)
Theorem C2_regeneration_completes_within_the_call
    (this : CachedIdGenerator) (w : World)
    (id1 : string) (this1 : CachedIdGenerator) (w1 : World) :
  idPool this = [] -> (0 < ID_POOL_SIZE this)%Z -> uuid_nonempty ->
  CachedIdGenerator_generateId this w = (id1, this1, w1) ->
  let n := Z.to_nat (ID_POOL_SIZE this) in
  let k := uuid_calls w in
  List.length (idPool this1) = n
  /\ Array_pop (idPool this1)
     = (Some (uuid_stream (k + n - 1)), map uuid_stream (seq k (n - 1)))
  /\ CachedIdGenerator_generateId this1 w1
     = (uuid_stream (k + n - 1),
        {| ID_POOL_SIZE := ID_POOL_SIZE this;
           idPool := map uuid_stream (seq k (n - 1)) |},
        w1).
Proof.
  intros He Hpos Hne Hcall n k.
  destruct (generateId_after_exhaustion this w He Hpos Hne) as (H1 & H2 & H3).
  rewrite H1 in Hcall. injection Hcall as _ <- <-.
  split; [|split].
  - cbn [set_idPool idPool]. apply fresh_pool_length.
  - rewrite H2. apply Array_pop_push.
  - exact H3.
Qed.

(** C3. In every state a [CachedIdGenerator] can reach, the pool holds
    between 0 and [ID_POOL_SIZE] identifiers, and a call of [generateId]
    keeps it so: on a non-empty pool it removes exactly one element, the
    last, which is the one it returns, and generates nothing; on an empty
    pool it leaves a pool of exactly [ID_POOL_SIZE] identifiers.  The bound
    also holds after any number of consecutive calls. *)
Theorem C3_pool_size_invariant (this : CachedIdGenerator) (w : World) :
  uuid_nonempty -> reachable (this, w) ->
  (0 <= Z.of_nat (List.length (idPool this)) <= ID_POOL_SIZE this)%Z
  /\ (forall id this' w',
        CachedIdGenerator_generateId this w = (id, this', w') ->
        ID_POOL_SIZE this' = ID_POOL_SIZE this
        /\ (0 <= Z.of_nat (List.length (idPool this')) <= ID_POOL_SIZE this')%Z
        /\ (idPool this <> [] ->
            idPool this = idPool this' ++ [id]
            /\ S (List.length (idPool this')) = List.length (idPool this)
            /\ w' = w)
        /\ (idPool this = [] ->
            Z.of_nat (List.length (idPool this')) = ID_POOL_SIZE this'))
  /\ (forall n ids this' w',
        call_generateId (G := CachedIdGenerator_IdGenerator) n this w
        = (ids, this', w') ->
        (0 <= Z.of_nat (List.length (idPool this')) <= ID_POOL_SIZE this')%Z).
Proof.
  intros Hne Hr.
  pose proof (reachable_invariant Hne Hr) as Hinv. cbn [fst] in Hinv.
  destruct Hinv as (Hsz & Hlen & Hall).
  split; [lia|]. split.
  - intros id this' w' Hcall.
    pose proof (reachable_invariant Hne (reach_generateId Hr)) as Hinv'.
    rewrite Hcall in Hinv'. cbn [fst] in Hinv'.
    destruct Hinv' as (Hsz' & Hlen' & _).
    split; [congruence|]. split; [lia|]. split.
    + intros Hnonempty.
      destruct (generateId_cases this w)
        as [[He _] | [(rest & Hp & _) | (rest & x & Hp & Hx & Heq)]].
      * contradiction.
      * exfalso. rewrite Hp in Hall. apply Forall_app in Hall.
        destruct Hall as [_ Hx]. inversion Hx as [|? ? Hx' _]. now apply Hx'.
      * rewrite Heq in Hcall. injection Hcall as <- <- <-.
        cbn [set_idPool idPool]. rewrite Hp, length_app, Nat.add_1_r.
        repeat split.
    + intros He.
      rewrite generateId_fallback in Hcall by (left; now rewrite He).
      injection Hcall as _ <- _. cbn [set_idPool idPool ID_POOL_SIZE].
      rewrite fresh_pool_length. lia.
  - intros n ids this' w' Hcalls.
    pose proof (reachable_invariant Hne (reachable_calls n Hr)) as Hinv'.
    rewrite Hcalls in Hinv'. cbn [fst] in Hinv'.
    destruct Hinv' as (Hsz' & Hlen' & _). lia.
Qed.

(** C4. For every capacity [C > 0], a generator freshly constructed with
    that pool size returns, on its first [C] calls, [C] pairwise distinct
    identifiers: exactly the identifiers of the initial pool, last one
    first, with no call of [uuidv4] and hence no regeneration; the call
    after these finds the pool empty and returns an identifier generated in
    that call, different from the [C] before it.  [uuidv4] is assumed never
    to repeat a value (and to return the non-empty text of a UUID). *)
Theorem C4_fresh_generator_serves_capacity_then_falls_back
    (C : Z) (w : World) (this0 : CachedIdGenerator) (w0 : World) :
  (0 < C)%Z -> uuid_distinct -> uuid_nonempty ->
  CachedIdGenerator_init C w = (this0, w0) ->
  let n := Z.to_nat C in
  let k := uuid_calls w in
  let ids := rev (idPool this0) in
  let this1 := {| ID_POOL_SIZE := C; idPool := [] |} in
  call_generateId (G := CachedIdGenerator_IdGenerator) n this0 w0
  = (ids, this1, w0)
  /\ List.length ids = n
  /\ NoDup ids
  /\ CachedIdGenerator_generateId this1 w0
     = (uuid_stream (k + n + n),
        {| ID_POOL_SIZE := C; idPool := map uuid_stream (seq (k + n) n) |},
        advance_uuid (n + 1) w0)
  /\ ~ In (uuid_stream (k + n + n)) ids.
Proof.
  intros Hpos Hd Hne Hinit n k ids this1.
  unfold CachedIdGenerator_init in Hinit.
  rewrite regenerateIdPool_eq in Hinit. cbn [set_idPool ID_POOL_SIZE] in Hinit.
  injection Hinit as <- <-. subst ids this1. cbn [idPool].
  split; [|split; [|split; [|split]]].
  - subst n. rewrite <- (fresh_pool_length (uuid_calls w) C) at 1.
    apply drain_pool. now apply fresh_pool_nonempty_strings.
  - rewrite length_rev. apply fresh_pool_length.
  - apply NoDup_rev. now apply fresh_pool_NoDup.
  - rewrite generateId_fallback by (left; reflexivity).
    unfold fallback_outcome, fresh_pool, set_idPool.
    cbn [ID_POOL_SIZE advance_uuid uuid_calls]. reflexivity.
  - rewrite <- in_rev. apply fresh_pool_not_later; [assumption|lia].
Qed.

(** C9. [generateId] treats a falsy popped value as exhaustion: when the
    pool is empty (the pop yields [undefined]) or its last element is the
    empty string, whatever the pool held is discarded, the pool is
    regenerated in full and a newly generated identifier is returned.
    Consequently a call returns an identifier taken from the pool only if
    that identifier is not the empty string: whenever the result is the
    empty string, it is the value [uuidv4] produced in that call. *)
Theorem C9_falsy_pop_is_treated_as_exhaustion
    (this : CachedIdGenerator) (w : World) :
  ((idPool this = [] \/ exists rest, idPool this = rest ++ [""%string]) ->
   CachedIdGenerator_generateId this w = fallback_outcome this w)
  /\ (fst (fst (CachedIdGenerator_generateId this w)) = ""%string ->
      CachedIdGenerator_generateId this w = fallback_outcome this w)
  /\ (forall rest x,
        idPool this = rest ++ [x] ->
        CachedIdGenerator_generateId this w = (x, set_idPool this rest, w) ->
        x <> ""%string).
Proof.
  split; [|split].
  - intros [He | [rest Hp]]; apply generateId_fallback.
    + left. now rewrite He.
    + right. exists rest. rewrite Hp. apply Array_pop_push.
  - intros Hempty.
    destruct (generateId_cases this w)
      as [[_ Heq] | [(rest & _ & Heq) | (rest & x & _ & Hx & Heq)]];
      try exact Heq.
    rewrite Heq in Hempty. cbn [fst] in Hempty. contradiction.
  - intros rest x Hp Hcall ->.
    rewrite generateId_fallback in Hcall
      by (right; exists rest; rewrite Hp; apply Array_pop_push).
    unfold fallback_outcome in Hcall. injection Hcall as _ _ Hw.
    apply (f_equal uuid_calls) in Hw. cbn [advance_uuid uuid_calls] in Hw. lia.
Qed.

(** ** The benchmark runner *)

Lemma for_from_collect {A} (f : Z -> A) (n : nat) :
  forall (i : Z) (acc : list A),
    for_from n i (fun i acc => Array_push acc (f i)) acc
    = acc ++ map (fun t => f (i + Z.of_nat t)%Z) (seq 0 n).
Proof.
  induction n as [|n IH]; intros i acc.
  - simpl. now rewrite app_nil_r.
  - cbn [for_from]. rewrite IH. unfold Array_push.
    rewrite <- app_assoc. cbn [app seq map]. rewrite Z.add_0_r.
    do 2 f_equal. rewrite <- seq_shift, map_map.
    apply map_ext. intros t. f_equal. lia.
Qed.

Lemma for_from_skip {A} (n : nat) :
  forall (i : Z) (s : A), for_from n i (fun _ s => s) s = s.
Proof. induction n as [|n IH]; intros i s; [reflexivity|apply IH]. Qed.

Lemma concat_uniform_block {A} (f : nat -> list A) (m : nat) :
  (forall t, List.length (f t) = m) ->
  forall T s t, t < T ->
    firstn m (skipn (t * m) (List.concat (map f (seq s T)))) = f (s + t).
Proof.
  intros Hlen T. induction T as [|T IH]; intros s t Ht; [lia|].
  cbn [seq map List.concat]. destruct t as [|t].
  - cbn [Nat.mul skipn]. rewrite Nat.add_0_r.
    rewrite firstn_app, Hlen, Nat.sub_diag. cbn [firstn].
    rewrite app_nil_r. rewrite <- (Hlen s). apply firstn_all.
  - cbn [Nat.mul]. rewrite skipn_app, Hlen.
    rewrite (skipn_all2 (f s)) by (rewrite Hlen; lia).
    replace (m + t * m - m) with (t * m) by lia. cbn [app].
    rewrite IH by lia. f_equal. lia.
Qed.

Lemma concat_uniform_length {A} (f : nat -> list A) (m : nat) :
  (forall t, List.length (f t) = m) ->
  forall T s, List.length (List.concat (map f (seq s T))) = T * m.
Proof.
  intros Hlen T. induction T as [|T IH]; intros s; [reflexivity|].
  cbn [seq map List.concat]. rewrite length_app, Hlen, IH. reflexivity.
Qed.

(** The slice [runTrials] takes for trial [t] is that trial's block. *)
Lemma slice_block (f : nat -> list float) (N : Z) (T t : nat) :
  (forall t, List.length (f t) = Z.to_nat N) -> t < T ->
  Array_slice (List.concat (map f (seq 0 T)))
    (Z.of_nat t * N) ((Z.of_nat t + 1) * N)
  = f t.
Proof.
  intros Hlen Ht.
  pose proof (concat_uniform_length f Hlen T 0) as Hall.
  pose proof (concat_uniform_block f Hlen 0 Ht) as Hblock.
  cbn [Nat.add] in Hblock.
  destruct (Z_le_gt_dec N 0) as [Hn | Hn].
  - (* no call per trial: every block, hence the whole array, is empty *)
    assert (Hz : Z.to_nat N = 0) by lia.
    rewrite Hz in Hall. rewrite Nat.mul_0_r in Hall.
    apply length_zero_iff_nil in Hall. rewrite Hall.
    unfold Array_slice. rewrite skipn_nil, firstn_nil.
    symmetry. apply length_zero_iff_nil. now rewrite Hlen.
  - unfold Array_slice. rewrite Hall.
    assert (H1 : (Z.of_nat t * N <? 0)%Z = false) by (apply Z.ltb_ge; nia).
    assert (H2 : ((Z.of_nat t + 1) * N <? 0)%Z = false) by (apply Z.ltb_ge; nia).
    rewrite H1, H2.
    assert (HT : Z.of_nat (T * Z.to_nat N) = (Z.of_nat T * N)%Z) by nia.
    rewrite HT.
    rewrite Z.min_l by nia. rewrite Z.min_l by nia.
    replace (Z.to_nat ((Z.of_nat t + 1) * N - Z.of_nat t * N)) with (Z.to_nat N)
      by nia.
    replace (Z.to_nat (Z.of_nat t * N)) with (t * Z.to_nat N) by nia.
    exact Hblock.
Qed.

Section Runner.

Context {S : Type} (G : IdGenerator S).

(** One timed call: the body of the inner loop of [runTrials]. *)
Let timed_call : Z -> list float * S * World -> list float * S * World :=
  fun _ '(times, idGenerator, w) =>
    let '(idStartTime, w) := performance_now w in
    let '(_, idGenerator, w) := generateId idGenerator w in
    let '(idEndTime, w) := performance_now w in
    (Array_push times
       ((idEndTime - idStartTime) * MICROSECONDS_CONVERSION)%float,
     idGenerator, w).

Lemma timed_call_eq (j : Z) (times : list float) (g : S) (w : World) :
  keeps_clock G ->
  exists g' w',
    timed_call j (times, g, w)
    = (times ++ [duration_us (clock_reads w)], g', w')
    /\ clock_reads w' = clock_reads w + 2.
Proof.
  intros Hk. unfold timed_call, performance_now.
  pose proof (Hk g (advance_clock 1 w)) as Hc.
  destruct (generateId g (advance_clock 1 w)) as [[id g1] w1].
  cbn [snd advance_clock clock_reads] in Hc.
  exists g1, (advance_clock 1 w1). split.
  - unfold Array_push, duration_us. rewrite Hc. reflexivity.
  - cbn [advance_clock clock_reads]. lia.
Qed.

Lemma trial_loop (Hk : keeps_clock G) (n : nat) :
  forall (j : Z) (times : list float) (g : S) (w : World),
  exists g' w',
    for_from n j timed_call (times, g, w)
    = (times ++ map (fun j => duration_us (clock_reads w + 2 * j)) (seq 0 n),
       g', w')
    /\ clock_reads w' = clock_reads w + 2 * n.
Proof.
  induction n as [|n IH]; intros j times g w.
  - exists g, w. cbn [for_from seq map]. rewrite app_nil_r. split; [reflexivity|lia].
  - cbn [for_from].
    destruct (timed_call_eq j times g w Hk) as (g1 & w1 & -> & Hc1).
    destruct (IH (j + 1)%Z (times ++ [duration_us (clock_reads w)]) g1 w1)
      as (g2 & w2 & -> & Hc2).
    exists g2, w2. split; [|lia].
    rewrite <- app_assoc. cbn [app seq map].
    rewrite <- seq_shift, map_map, Nat.mul_0_r, Nat.add_0_r.
    rewrite (map_ext (fun j => duration_us (clock_reads w1 + 2 * j))
                     (fun x => duration_us (clock_reads w + 2 * Datatypes.S x)))
      by (intros t; f_equal; lia).
    reflexivity.
Qed.

Lemma trials_loop (Hk : keeps_clock G) (N : Z) (T : nat) :
  forall (i : Z) (times : list float) (g : S) (w : World),
  exists g' w',
    for_from T i (fun _ st => for_lt N timed_call st) (times, g, w)
    = (times
         ++ List.concat (map (trial_durations (clock_reads w) (Z.to_nat N)) (seq 0 T)),
       g', w')
    /\ clock_reads w' = clock_reads w + 2 * (T * Z.to_nat N).
Proof.
  induction T as [|T IH]; intros i times g w.
  - exists g, w. cbn [for_from seq map List.concat]. rewrite app_nil_r.
    split; [reflexivity|lia].
  - cbn [for_from]. unfold for_lt at 2.
    destruct (trial_loop Hk (Z.to_nat N) 0%Z times g w) as (g1 & w1 & -> & Hc1).
    destruct (IH (i + 1)%Z
                (times ++ map (fun j => duration_us (clock_reads w + 2 * j))
                              (seq 0 (Z.to_nat N))) g1 w1)
      as (g2 & w2 & -> & Hc2).
    exists g2, w2. split; [|lia].
    rewrite <- app_assoc. cbn [seq map List.concat].
    rewrite <- seq_shift, map_map.
    rewrite (map_ext (trial_durations (clock_reads w1) (Z.to_nat N))
                     (fun x => trial_durations (clock_reads w) (Z.to_nat N)
                                 (Datatypes.S x))).
    + reflexivity.
    + intros t. unfold trial_durations. apply map_ext.
      intros u. f_equal. rewrite Hc1. lia.
Qed.

Lemma runTrials_with_eq (N : Z) (g : S) (T : Z) (w : World) :
  keeps_clock G ->
  exists g' w',
    runTrials_with N g T w
    = (map (fun i => mean (trial_durations (clock_reads w) (Z.to_nat N) i))
           (seq 0 (Z.to_nat T)),
       g', w')
    /\ clock_reads w' = clock_reads w + 2 * (Z.to_nat T * Z.to_nat N).
Proof.
  intros Hk. unfold runTrials_with. fold timed_call. unfold for_lt at 1.
  destruct (trials_loop Hk N (Z.to_nat T) 0%Z [] g w) as (g' & w' & -> & Hc).
  exists g', w'. split; [|exact Hc].
  cbn [app]. f_equal. f_equal. unfold for_lt.
  rewrite (for_from_collect
             (fun i =>
                let trialTimes :=
                  Array_slice
                    (List.concat (map (trial_durations (clock_reads w) (Z.to_nat N))
                                 (seq 0 (Z.to_nat T))))
                    (i * N) ((i + 1) * N) in
                (fold_left (fun a b => a + b) trialTimes 0
                 / Number_of_nat (List.length trialTimes))%float)).
  cbn [app]. apply map_ext_in. intros t Ht. apply in_seq in Ht.
  cbn zeta. rewrite Z.add_0_l.
  rewrite slice_block; [reflexivity| |lia].
  intros u. unfold trial_durations. now rewrite length_map, length_seq.
Qed.

Lemma timed_call_is_timed_next (j : Z) (times : list float) (g : S) (w : World) :
  timed_call j (times, g, w)
  = (times ++ [fst (fst (timed_next g w))],
     snd (fst (timed_next g w)), snd (timed_next g w)).
Proof.
  unfold timed_call, timed_next, Array_push.
  destruct (performance_now w) as [t0 w0].
  destruct (generateId g w0) as [[id g1] w1].
  destruct (performance_now w1) as [t1 w2]. reflexivity.
Qed.

Lemma timed_loop_is_timed_calls (n : nat) :
  forall (j : Z) (times : list float) (g : S) (w : World),
    for_from n j timed_call (times, g, w)
    = (times ++ fst (fst (timed_calls n g w)),
       snd (fst (timed_calls n g w)), snd (timed_calls n g w)).
Proof.
  induction n as [|n IH]; intros j times g w.
  - cbn [for_from timed_calls fst snd]. now rewrite app_nil_r.
  - cbn [for_from timed_calls]. rewrite timed_call_is_timed_next.
    destruct (timed_next g w) as [[d g1] w1]. cbn [fst snd].
    rewrite IH.
    destruct (timed_calls n g1 w1) as [[ds g2] w2]. cbn [fst snd].
    now rewrite <- app_assoc.
Qed.

Lemma trials_loop_is_trial_blocks (N : Z) (T : nat) :
  forall (i : Z) (times : list float) (g : S) (w : World),
    for_from T i (fun _ st => for_lt N timed_call st) (times, g, w)
    = (times ++ List.concat (fst (fst (trial_blocks T (Z.to_nat N) g w))),
       snd (fst (trial_blocks T (Z.to_nat N) g w)),
       snd (trial_blocks T (Z.to_nat N) g w)).
Proof.
  induction T as [|T IH]; intros i times g w.
  - cbn [for_from trial_blocks fst snd List.concat]. now rewrite app_nil_r.
  - cbn [for_from trial_blocks]. unfold for_lt at 2.
    rewrite timed_loop_is_timed_calls.
    destruct (timed_calls (Z.to_nat N) g w) as [[ds g1] w1]. cbn [fst snd].
    rewrite IH.
    destruct (trial_blocks T (Z.to_nat N) g1 w1) as [[bs g2] w2].
    cbn [fst snd List.concat]. now rewrite <- app_assoc.
Qed.

Lemma timed_calls_length (n : nat) :
  forall (g : S) (w : World), List.length (fst (fst (timed_calls n g w))) = n.
Proof.
  induction n as [|n IH]; intros g w; [reflexivity|].
  cbn [timed_calls]. destruct (timed_next g w) as [[d g1] w1].
  specialize (IH g1 w1).
  destruct (timed_calls n g1 w1) as [[ds g2] w2]. cbn [fst List.length] in *.
  now rewrite IH.
Qed.

Lemma trial_blocks_shape (T N : nat) :
  forall (g : S) (w : World),
    List.length (fst (fst (trial_blocks T N g w))) = T
    /\ Forall (fun b => List.length b = N) (fst (fst (trial_blocks T N g w))).
Proof.
  induction T as [|T IH]; intros g w.
  - cbn [trial_blocks fst List.length]. split; [reflexivity|constructor].
  - cbn [trial_blocks]. pose proof (timed_calls_length N g w) as Hds.
    destruct (timed_calls N g w) as [[ds g1] w1]. cbn [fst] in Hds.
    destruct (IH g1 w1) as [Hlen Hall].
    destruct (trial_blocks T N g1 w1) as [[bs g2] w2]. cbn [fst List.length] in *.
    split; [now rewrite Hlen | now constructor].
Qed.

Lemma list_as_map_nth {A} (l : list A) (d : A) :
  l = map (fun t => nth t l d) (seq 0 (List.length l)).
Proof.
  apply nth_ext with (d := d) (d' := d).
  - now rewrite length_map, length_seq.
  - intros i Hi. symmetry.
    rewrite (nth_indep (map (fun t => nth t l d) (seq 0 (List.length l)))
               d (nth 0 l d))
      by (rewrite length_map, length_seq; exact Hi).
    rewrite (map_nth (fun t => nth t l d) (seq 0 (List.length l)) 0 i).
    now rewrite seq_nth.
Qed.

(** The program's two passes - all durations into one array, then a slice
    and a mean per trial - give what the trial-by-trial reading gives: the
    same means, the same generator, the same world. *)
Lemma runTrials_with_is_run_by_trials (N : Z) (g : S) (T : Z) (w : World) :
  runTrials_with N g T w = run_by_trials N g T w.
Proof.
  unfold runTrials_with, run_by_trials. fold timed_call. unfold for_lt at 1.
  rewrite trials_loop_is_trial_blocks.
  destruct (trial_blocks_shape (Z.to_nat T) (Z.to_nat N) g w) as [Hlen Hall].
  destruct (trial_blocks (Z.to_nat T) (Z.to_nat N) g w) as [[blocks g'] w'].
  cbn [fst snd app] in *. f_equal. f_equal. unfold for_lt.
  set (f := fun t => nth t blocks (repeat 0%float (Z.to_nat N))).
  assert (Hf : forall t, List.length (f t) = Z.to_nat N).
  { intros t. unfold f. destruct (Nat.lt_ge_cases t (List.length blocks)) as [Hlt|Hge].
    - rewrite Forall_forall in Hall. apply Hall. now apply nth_In.
    - rewrite nth_overflow by exact Hge. apply repeat_length. }
  assert (Hblocks : blocks = map f (seq 0 (Z.to_nat T))).
  { rewrite <- Hlen. apply list_as_map_nth. }
  clearbody f. subst blocks.
  rewrite (for_from_collect
             (fun i =>
                (fold_left (fun a b => a + b)
                   (Array_slice (List.concat (map f (seq 0 (Z.to_nat T))))
                      (i * N) ((i + 1) * N)) 0
                 / Number_of_nat
                     (List.length
                        (Array_slice (List.concat (map f (seq 0 (Z.to_nat T))))
                           (i * N) ((i + 1) * N))))%float)).
  cbn [app]. rewrite map_map.
  apply map_ext_in. intros t Ht. apply in_seq in Ht.
  rewrite Z.add_0_l.
  rewrite (slice_block f N (T := Z.to_nat T) (t := t)) by (exact Hf || lia).
  reflexivity.
Qed.

End Runner.

Lemma NormalIdGenerator_keeps_clock : keeps_clock NormalIdGenerator_IdGenerator.
Proof. intros g w. reflexivity. Qed.

Lemma CachedIdGenerator_keeps_clock : keeps_clock CachedIdGenerator_IdGenerator.
Proof.
  intros g w. cbn [generateId CachedIdGenerator_IdGenerator].
  destruct (generateId_cases g w)
    as [[_ ->] | [(rest & _ & ->) | (rest & x & _ & _ & ->)]]; reflexivity.
Qed.

Lemma runTrials_with_nonpositive {S} (G : IdGenerator S)
      (N : Z) (g : S) (T : Z) (w : World) :
  (T <= 0)%Z -> runTrials_with N g T w = ([], g, w).
Proof.
  intros HT. unfold runTrials_with, for_lt.
  replace (Z.to_nat T) with 0 by lia. reflexivity.
Qed.

Lemma Array_slice_nil {A} (s e : Z) : Array_slice (@nil A) s e = [].
Proof. unfold Array_slice. now rewrite skipn_nil, firstn_nil. Qed.

Lemma map_const_repeat {A B} (b : B) (l : list A) :
  map (fun _ => b) l = repeat b (List.length l).
Proof. induction l as [|a l IH]; [reflexivity|]. cbn. now rewrite IH. Qed.

Lemma runTrials_with_zero {S} (G : IdGenerator S) (g : S) (T : Z) (w : World) :
  runTrials_with 0 g T w = (repeat nan (Z.to_nat T), g, w).
Proof.
  unfold runTrials_with.
  change (for_lt T
            (fun _ st =>
               for_lt 0
                 (fun _ '(times, idGenerator, w) =>
                    let '(idStartTime, w) := performance_now w in
                    let '(_, idGenerator, w) := generateId idGenerator w in
                    let '(idEndTime, w) := performance_now w in
                    (Array_push times
                       ((idEndTime - idStartTime) * MICROSECONDS_CONVERSION)%float,
                     idGenerator, w))
                 st)
            (@nil float, g, w))
    with (for_from (Z.to_nat T) 0%Z
            (fun (_ : Z) (st : list float * S * World) => st) ([], g, w)).
  rewrite for_from_skip. unfold for_lt.
  rewrite (for_from_collect
             (fun i =>
                let trialTimes := Array_slice (@nil float) (i * 0) ((i + 1) * 0) in
                (fold_left (fun a b => a + b) trialTimes 0
                 / Number_of_nat (List.length trialTimes))%float)).
  cbn [app]. f_equal. f_equal.
  transitivity (map (fun _ : nat => nan) (seq 0 (Z.to_nat T))).
  - apply map_ext. intros t. cbn zeta. rewrite Array_slice_nil. reflexivity.
  - now rewrite map_const_repeat, length_seq.
Qed.

Lemma eqb_nan_r (x : float) : (x =? nan)%float = false.
Proof.
  rewrite FloatAxioms.eqb_spec. change (Prim2SF nan) with S754_nan.
  unfold SFeqb, SFcompare. destruct (Prim2SF x); reflexivity.
Qed.

(** C5. [runTrials] does, for each of [trials] repetitions, [ID_COUNT]
    timed calls of [generateId] - each bracketed by two clock readings, its
    duration their difference in milliseconds times 1000 - and returns one
    result per trial, in trial order, the arithmetic mean of that trial's
    durations: its result, and the generator and the world it leaves, are
    those of [run_by_trials], for every generator.  So for [trials = T >= 0]
    there are exactly [T] results (none for a negative [T]).  For a
    generator that does not itself read the clock, the [i]-th result is the
    mean of the durations between clock readings [2 (i N + j)] and the next,
    for [j < N], counted from the start of the run.  All of this is stated
    for the body of [runTrials] with any number [N] of calls per trial, and
    for [runTrials] itself, where [N] is [ID_COUNT]. *)
Theorem C5_runTrials_returns_trial_means {S} (G : IdGenerator S)
    (g : S) (T N : Z) (w : World) :
  runTrials_with N g T w = run_by_trials N g T w
  /\ runTrials g T w = run_by_trials ID_COUNT g T w
  /\ Z.of_nat (List.length (fst (fst (runTrials_with N g T w)))) = Z.max 0 T
  /\ (keeps_clock G ->
      let expected N :=
        map (fun i => mean (trial_durations (clock_reads w) (Z.to_nat N) i))
            (seq 0 (Z.to_nat T)) in
      fst (fst (runTrials_with N g T w)) = expected N
      /\ (forall i, i < Z.to_nat T ->
            nth_error (fst (fst (runTrials_with N g T w))) i
            = Some (mean (trial_durations (clock_reads w) (Z.to_nat N) i)))
      /\ fst (fst (runTrials g T w)) = expected ID_COUNT).
Proof.
  split; [apply runTrials_with_is_run_by_trials|].
  split; [unfold runTrials; apply runTrials_with_is_run_by_trials|].
  split.
  - rewrite runTrials_with_is_run_by_trials. unfold run_by_trials.
    destruct (trial_blocks_shape G (Z.to_nat T) (Z.to_nat N) g w)
      as [Hlen _].
    destruct (trial_blocks (Z.to_nat T) (Z.to_nat N) g w) as [[blocks g'] w'].
    cbn [fst] in *. rewrite length_map, Hlen. lia.
  - intros Hk expected.
    destruct (runTrials_with_eq N g T w Hk) as (g' & w' & Heq & _).
    split; [|split].
    + rewrite Heq. reflexivity.
    + intros i Hi. rewrite Heq. cbn [fst].
      rewrite nth_error_map, nth_error_seq.
      destruct (Nat.ltb_spec i (Z.to_nat T)) as [_|Hge]; [reflexivity|lia].
    + unfold runTrials.
      destruct (runTrials_with_eq ID_COUNT g T w Hk) as (g2 & w2 & Heq2 & _).
      rewrite Heq2. reflexivity.
Qed.

(** C8. With zero calls per trial - the body of [runTrials] with
    [ID_COUNT] taken to be 0 - every trial's mean is NaN: the sum 0 of no
    durations divided by the length 0.  NaN is not a zero-duration mean: it
    is not zero, and it compares equal to no number at all. *)
Theorem C8_zero_calls_per_trial_gives_NaN {S} (G : IdGenerator S)
    (g : S) (T : Z) (w : World) :
  runTrials_with 0 g T w = (repeat nan (Z.to_nat T), g, w)
  /\ Forall (fun m => is_nan m = true) (fst (fst (runTrials_with 0 g T w)))
  /\ is_nan 0%float = false
  /\ (forall x : float, (x =? nan)%float = false).
Proof.
  rewrite runTrials_with_zero. cbn [fst].
  split; [reflexivity|]. split; [|split].
  - apply Forall_forall. intros m Hm. apply repeat_spec in Hm. now subst m.
  - reflexivity.
  - exact eqb_nan_r.
Qed.

(** ** The comparison table *)

Section Table.

Variables normalTimes cachedTimes : list float.

(** The body of the loop of [printComparisonTable]. *)
Let row_step : Z -> list Row -> completion (list Row) :=
  fun i table =>
    let normalTime := Array_get normalTimes i in
    let cachedTime := Array_get cachedTimes i in
    let difference := (ToNumber normalTime / ToNumber cachedTime)%float in
    let label := differenceLabel difference in
    normalText <- method_toFixed Number_toString normalTime 2 ;;
    cachedText <- method_toFixed Number_toString cachedTime 2 ;;
    Normal
      (Array_push table
         {| Trial := i + 1;
            Normal_ID_Generation := (normalText ++ "µs")%string;
            Cached_ID_Generation := (cachedText ++ "µs")%string;
            Difference := label |}).

Lemma Array_get_in_range {A} (a : list A) (i : nat) (d : A) :
  i < List.length a -> Array_get a (Z.of_nat i) = Some (nth i a d).
Proof.
  intros Hi. unfold Array_get.
  destruct (Z.ltb_spec (Z.of_nat i) 0) as [Hneg|_]; [lia|].
  rewrite Nat2Z.id. now apply nth_error_nth'.
Qed.

Lemma Array_get_out_of_range {A} (a : list A) (i : nat) :
  List.length a <= i -> Array_get a (Z.of_nat i) = None.
Proof.
  intros Hi. unfold Array_get.
  destruct (Z.ltb_spec (Z.of_nat i) 0) as [Hneg|_]; [reflexivity|].
  rewrite Nat2Z.id. now apply nth_error_None.
Qed.

Lemma row_step_ok (i : nat) (table : list Row) :
  i < List.length normalTimes -> i < List.length cachedTimes ->
  row_step (Z.of_nat i) table
  = Normal (table ++ [make_row i (nth i normalTimes nan) (nth i cachedTimes nan)]).
Proof.
  intros Hn Hc. unfold row_step.
  rewrite (Array_get_in_range normalTimes nan Hn).
  rewrite (Array_get_in_range cachedTimes nan Hc).
  reflexivity.
Qed.

Lemma row_step_throw (i : nat) (table : list Row) :
  i < List.length normalTimes -> List.length cachedTimes <= i ->
  row_step (Z.of_nat i) table = Throw toFixed_TypeError.
Proof.
  intros Hn Hc. unfold row_step.
  rewrite (Array_get_in_range normalTimes nan Hn).
  rewrite (Array_get_out_of_range cachedTimes Hc).
  reflexivity.
Qed.

Lemma table_loop_ok (n : nat) :
  forall (i : nat) (table : list Row),
    i + n <= List.length normalTimes -> i + n <= List.length cachedTimes ->
    for_from_c n (Z.of_nat i) row_step table
    = Normal
        (table ++ map (fun i => make_row i (nth i normalTimes nan)
                                           (nth i cachedTimes nan))
                      (seq i n)).
Proof.
  induction n as [|n IH]; intros i table Hn Hc.
  - cbn [for_from_c seq map]. now rewrite app_nil_r.
  - cbn [for_from_c]. rewrite row_step_ok by lia. cbn [bind].
    replace (Z.of_nat i + 1)%Z with (Z.of_nat (Datatypes.S i)) by lia.
    rewrite IH by lia. rewrite <- app_assoc. reflexivity.
Qed.

Lemma table_loop_throw (n : nat) :
  forall (i : nat) (table : list Row),
    0 < n -> i + n <= List.length normalTimes ->
    List.length cachedTimes < i + n ->
    for_from_c n (Z.of_nat i) row_step table = Throw toFixed_TypeError.
Proof.
  induction n as [|n IH]; intros i table Hpos Hn Hc; [lia|].
  cbn [for_from_c].
  destruct (Nat.lt_ge_cases i (List.length cachedTimes)) as [Hlt | Hge].
  - rewrite row_step_ok by lia. cbn [bind].
    replace (Z.of_nat i + 1)%Z with (Z.of_nat (Datatypes.S i)) by lia.
    apply IH; lia.
  - rewrite row_step_throw by lia. reflexivity.
Qed.

Lemma printComparisonTable_ok (w : World) :
  List.length normalTimes <= List.length cachedTimes ->
  printComparisonTable normalTimes cachedTimes w
  = Normal (write_console (console_table (table_rows normalTimes cachedTimes)) w).
Proof.
  intros Hlen. unfold printComparisonTable, for_lt_c. rewrite Nat2Z.id.
  assert (H := table_loop_ok (List.length normalTimes) 0 []).
  change (Z.of_nat 0) with 0%Z in H. unfold row_step in H.
  rewrite H by lia. reflexivity.
Qed.

Lemma printComparisonTable_throw (w : World) :
  List.length cachedTimes < List.length normalTimes ->
  printComparisonTable normalTimes cachedTimes w = Throw toFixed_TypeError.
Proof.
  intros Hlen. unfold printComparisonTable, for_lt_c. rewrite Nat2Z.id.
  assert (H := table_loop_throw (n := List.length normalTimes) 0 []).
  change (Z.of_nat 0) with 0%Z in H. unfold row_step in H.
  rewrite H by lia. reflexivity.
Qed.

Lemma table_rows_length :
  List.length (table_rows normalTimes cachedTimes) = List.length normalTimes.
Proof. unfold table_rows. now rewrite length_map, length_seq. Qed.

Lemma table_rows_nth (i : nat) (n c : float) :
  nth_error normalTimes i = Some n -> nth_error cachedTimes i = Some c ->
  nth_error (table_rows normalTimes cachedTimes) i = Some (make_row i n c).
Proof.
  intros Hn Hc. unfold table_rows.
  assert (Hi : i < List.length normalTimes)
    by (apply nth_error_Some; congruence).
  rewrite nth_error_map, nth_error_seq.
  destruct (Nat.ltb_spec i (List.length normalTimes)) as [_|Hge]; [|lia].
  cbn [option_map Nat.add].
  now rewrite (nth_error_nth _ _ _ Hn), (nth_error_nth _ _ _ Hc).
Qed.

End Table.

Lemma runExperiment_nonpositive (trials : Z) (w : World) :
  (trials <= 0)%Z ->
  runExperiment trials w
  = Normal
      (write_console (console_table [])
         (write_console (console_log "Running trials for Cached ID generation...")
            (write_console (console_log "Running trials for Normal ID generation...")
               (advance_uuid (Z.to_nat 1000000) w)))).
Proof.
  intros Ht. unfold runExperiment, CachedIdGenerator_new, CachedIdGenerator_init.
  rewrite regenerateIdPool_eq. unfold runTrials.
  rewrite !runTrials_with_nonpositive by assumption.
  reflexivity.
Qed.

(** C6 (amended). In the row for a trial index with baseline mean [n] and
    candidate mean [c], the label is decided by the computed quotient
    [n / c]: when it exceeds 1 the label is that quotient to two decimals
    followed by "x faster"; otherwise it is the reciprocal [1 / (n / c)] of
    the computed quotient to two decimals followed by "x slower".  So 10.0
    against 5.0 gives "2.00x faster", 5.0 against 10.0 gives "2.00x slower",
    and a quotient of exactly 1 gives "1.00x slower". *)
Theorem C6_label_from_computed_quotient
    (normalTimes cachedTimes : list float) (w : World)
    (i : nat) (n c : float) :
  List.length normalTimes <= List.length cachedTimes ->
  nth_error normalTimes i = Some n ->
  nth_error cachedTimes i = Some c ->
  (exists rows row,
      printComparisonTable normalTimes cachedTimes w
      = Normal (write_console (console_table rows) w)
      /\ nth_error rows i = Some row
      /\ Difference row
         = if (1 <? n / c)%float
           then (Number_toFixed Number_toString (n / c)%float 2
                 ++ "x faster")%string
           else (Number_toFixed Number_toString (1 / (n / c))%float 2
                 ++ "x slower")%string)
  /\ differenceLabel (10 / 5)%float = "2.00x faster"%string
  /\ differenceLabel (5 / 10)%float = "2.00x slower"%string
  /\ ((n / c)%float = 1%float ->
      differenceLabel (n / c)%float = "1.00x slower"%string).
Proof.
  intros Hlen Hn Hc. split; [|split; [|split]].
  - exists (table_rows normalTimes cachedTimes), (make_row i n c).
    split; [now apply printComparisonTable_ok|].
    split; [now apply table_rows_nth|]. reflexivity.
  - reflexivity.
  - reflexivity.
  - intros ->. reflexivity.
Qed.

(** C7 (amended). Nothing is validated and nothing is rejected.  With a
    trial count that is zero or negative, [runTrials] returns an empty
    sequence of results without calling the generator, and [runExperiment]
    completes normally, having built the pool and printed its two messages
    and an empty table.  The pool size and the number of calls per trial
    are constants of the program (1000000 and 100000), not values a caller
    supplies; were the pool-size field initialised with a non-positive
    value, the constructor would return a generator with an empty pool. *)
Theorem C7_nonpositive_counts_are_accepted (trials : Z) (w : World) :
  (trials <= 0)%Z ->
  runExperiment trials w
  = Normal
      (write_console (console_table [])
         (write_console (console_log "Running trials for Cached ID generation...")
            (write_console (console_log "Running trials for Normal ID generation...")
               (advance_uuid (Z.to_nat 1000000) w))))
  /\ (forall S (G : IdGenerator S) (g : S),
        runTrials g trials w = ([], g, w))
  /\ (forall C : Z, (C <= 0)%Z ->
        CachedIdGenerator_init C w = ({| ID_POOL_SIZE := C; idPool := [] |}, w)).
Proof.
  intros Ht. split; [|split].
  - now apply runExperiment_nonpositive.
  - intros S G g. unfold runTrials. now apply runTrials_with_nonpositive.
  - intros C HC. unfold CachedIdGenerator_init.
    rewrite regenerateIdPool_eq. unfold fresh_pool.
    cbn [set_idPool ID_POOL_SIZE].
    replace (Z.to_nat C) with 0 by lia. cbn [seq map].
    now rewrite advance_uuid_0.
Qed.

(** C10 (amended). [printComparisonTable] produces exactly one row per
    element of [normalTimes] when [cachedTimes] is at least as long, the
    elements of [cachedTimes] beyond that length being ignored.  When
    [cachedTimes] is shorter, no table is printed: at the first index that
    [cachedTimes] lacks, [cachedTime] is [undefined] and
    [cachedTime.toFixed(2)] throws a TypeError, which ends the call. *)
Theorem C10_one_row_per_baseline_or_TypeError
    (normalTimes cachedTimes : list float) (w : World) :
  (List.length normalTimes <= List.length cachedTimes ->
   exists rows,
     printComparisonTable normalTimes cachedTimes w
     = Normal (write_console (console_table rows) w)
     /\ List.length rows = List.length normalTimes)
  /\ (List.length cachedTimes < List.length normalTimes ->
      printComparisonTable normalTimes cachedTimes w = Throw toFixed_TypeError).
Proof.
  split.
  - intros Hlen. exists (table_rows normalTimes cachedTimes).
    split; [now apply printComparisonTable_ok|apply table_rows_length].
  - apply printComparisonTable_throw.
Qed.

(** ** Sequences of calls *)

Lemma advance_clock_0 (w : World) : advance_clock 0 w = w.
Proof. destruct w. unfold advance_clock. simpl. now rewrite Nat.add_0_r. Qed.

Lemma advance_clock_add (n m : nat) (w : World) :
  advance_clock n (advance_clock m w) = advance_clock (m + n) w.
Proof. unfold advance_clock. simpl. now rewrite Nat.add_assoc. Qed.

Lemma call_generateId_app {S} (G : IdGenerator S) (n m : nat) :
  forall (g : S) (w : World),
  call_generateId (n + m) g w
  = (fst (fst (call_generateId n g w))
  ++ fst (fst (call_generateId m (snd (fst (call_generateId n g w)))
  (snd (call_generateId n g w)))),
  snd (fst (call_generateId m (snd (fst (call_generateId n g w)))
  (snd (call_generateId n g w)))),
  snd (call_generateId m (snd (fst (call_generateId n g w)))
  (snd (call_generateId n g w)))).
Proof.
  induction n as [|n IH]; intros g w.
  - cbn [Nat.add call_generateId fst snd app].
    now destruct (call_generateId m g w) as [[ids g'] w'].
  - cbn [Nat.add call_generateId].
    destruct (generateId g w) as [[id g1] w1].
    rewrite IH.
    destruct (call_generateId n g1 w1) as [[ids g2] w2]. cbn [fst snd].
    destruct (call_generateId m g2 w2) as [[ids' g3] w3]. reflexivity.
Qed.

Lemma NormalIdGenerator_calls (n : nat) :
  forall (w : World),
  call_generateId (G := NormalIdGenerator_IdGenerator) n tt w
  = (map uuid_stream (seq (uuid_calls w) n), tt, advance_uuid n w).
Proof.
  induction n as [|n IH]; intros w.
  - cbn [call_generateId seq map]. now rewrite advance_uuid_0.
  - cbn [call_generateId generateId NormalIdGenerator_IdGenerator].
    unfold NormalIdGenerator_generateId, uuidv4. rewrite IH.
    cbn [advance_uuid uuid_calls seq map]. rewrite Nat.add_1_r.
    rewrite advance_uuid_add. reflexivity.
Qed.

(** Calls served from the pool take its last elements, last first, and
    touch nothing else. *)
Lemma drain_pool_partial (size : Z) (taken : list string) :
  forall (kept : list string) (w : World),
  Forall (fun s => s <> ""%string) taken ->
  call_generateId (G := CachedIdGenerator_IdGenerator) (List.length taken)
  {| ID_POOL_SIZE := size; idPool := kept ++ taken |} w
  = (rev taken, {| ID_POOL_SIZE := size; idPool := kept |}, w).
Proof.
  induction taken as [|x taken IH] using rev_ind; intros kept w Hall.
  - cbn [List.length call_generateId rev]. now rewrite app_nil_r.
  - apply Forall_app in Hall. destruct Hall as [Htaken Hx].
    inversion Hx as [|? ? Hx' _]; subst.
    rewrite length_app, Nat.add_1_r.
    cbn [call_generateId generateId CachedIdGenerator_IdGenerator].
    rewrite generateId_pooled with (rest := kept ++ taken) (x := x);
    [ | cbn [idPool]; now rewrite app_assoc | assumption ].
    unfold set_idPool. cbn [ID_POOL_SIZE].
    rewrite (IH kept w Htaken). rewrite rev_app_distr. reflexivity.
Qed.




(** ** What a run leaves behind *)

Section RunnerEffects.

Context {S : Type} (G : IdGenerator S).
Hypothesis Hindep : clock_independent G.

Let timed_call' : Z -> list float * S * World -> list float * S * World :=
  fun _ '(times, idGenerator, w) =>
  let '(idStartTime, w) := performance_now w in
  let '(_, idGenerator, w) := generateId idGenerator w in
  let '(idEndTime, w) := performance_now w in
  (Array_push times
  ((idEndTime - idStartTime) * MICROSECONDS_CONVERSION)%float,
  idGenerator, w).

Lemma timed_call_state (j : Z) (times : list float) (g : S) (w : World) (c : nat) :
  exists times',
  timed_call' j (times, g, advance_clock c w)
  = (times', snd (fst (generateId g w)),
  advance_clock (c + 2) (snd (generateId g w))).
Proof.
  unfold timed_call', performance_now.
  rewrite advance_clock_add, Hindep.
  destruct (generateId g w) as [[id g1] w1]. cbn [fst snd].
  rewrite advance_clock_add.
  replace (c + 1 + 1) with (c + 2) by lia.
  eexists. reflexivity.
Qed.

Lemma timed_loop_state (n : nat) :
  forall (j : Z) (times : list float) (g : S) (w : World) (c : nat),
  exists times',
  for_from n j timed_call' (times, g, advance_clock c w)
  = (times', snd (fst (call_generateId n g w)),
  advance_clock (c + 2 * n) (snd (call_generateId n g w))).
Proof.
  induction n as [|n IH]; intros j times g w c.
  - exists times. cbn [for_from call_generateId fst snd].
    now rewrite Nat.mul_0_r, Nat.add_0_r.
  - cbn [for_from call_generateId].
    destruct (timed_call_state j times g w c) as (times1 & ->).
    destruct (generateId g w) as [[id g1] w1]. cbn [fst snd].
    destruct (IH (j + 1)%Z times1 g1 w1 (c + 2)) as (times2 & ->).
    destruct (call_generateId n g1 w1) as [[ids g2] w2]. cbn [fst snd].
    exists times2. do 2 f_equal. lia.
Qed.

Lemma trials_loop_state (N : Z) (T : nat) :
  forall (i : Z) (times : list float) (g : S) (w : World) (c : nat),
  exists times',
  for_from T i (fun _ st => for_lt N timed_call' st) (times, g, advance_clock c w)
  = (times', snd (fst (call_generateId (T * Z.to_nat N) g w)),
  advance_clock (c + 2 * (T * Z.to_nat N))
  (snd (call_generateId (T * Z.to_nat N) g w))).
Proof.
  induction T as [|T IH]; intros i times g w c.
  - exists times. cbn [for_from Nat.mul call_generateId fst snd].
    now rewrite Nat.add_0_r.
  - cbn [for_from Nat.mul]. unfold for_lt at 2.
    destruct (timed_loop_state (Z.to_nat N) 0%Z times g w c) as (times1 & ->).
    rewrite call_generateId_app.
    destruct (call_generateId (Z.to_nat N) g w) as [[ids1 g1] w1]. cbn [fst snd].
    destruct (IH (i + 1)%Z times1 g1 w1 (c + 2 * Z.to_nat N)) as (times2 & ->).
    destruct (call_generateId (T * Z.to_nat N) g1 w1) as [[ids2 g2] w2].
    cbn [fst snd]. exists times2. do 2 f_equal. lia.
Qed.

Lemma runTrials_with_state (N : Z) (g : S) (T : Z) (w : World) :
  snd (fst (runTrials_with N g T w))
  = snd (fst (call_generateId (Z.to_nat T * Z.to_nat N) g w))
  /\ snd (runTrials_with N g T w)
  = advance_clock (2 * (Z.to_nat T * Z.to_nat N))
  (snd (call_generateId (Z.to_nat T * Z.to_nat N) g w)).
Proof.
  unfold runTrials_with. fold timed_call'.
  destruct (trials_loop_state N (Z.to_nat T) 0%Z [] g w 0) as (times' & Heq).
  rewrite advance_clock_0 in Heq.
  change (for_from (Z.to_nat T) 0%Z
  (fun (_ : Z) st => for_lt N timed_call' st) ([], g, w))
  with (for_lt T (fun (_ : Z) st => for_lt N timed_call' st) ([], g, w)) in Heq.
  rewrite !Heq. cbn [fst snd Nat.add].
  split; reflexivity.
Qed.

End RunnerEffects.

Lemma NormalIdGenerator_clock_independent :
  clock_independent NormalIdGenerator_IdGenerator.
Proof. intros g w c. reflexivity. Qed.

Lemma CachedIdGenerator_clock_independent :
  clock_independent CachedIdGenerator_IdGenerator.
Proof.
  intros this w c. cbn [generateId CachedIdGenerator_IdGenerator].
  destruct (Array_pop_cases (idPool this)) as [[He Hp] | (rest & x & He & Hp)].
  - rewrite !generateId_fallback by (left; exact Hp). reflexivity.
  - destruct (string_dec x "") as [-> | Hx].
    + rewrite !generateId_fallback by (right; exists rest; exact Hp). reflexivity.
    + rewrite !generateId_pooled with (rest := rest) (x := x) by assumption.
      reflexivity.
Qed.

(** Calls of the cached generator change nothing of the world but the
    number of identifiers generated, which never decreases. *)
Lemma CachedIdGenerator_calls_frame (n : nat) :
  forall (this : CachedIdGenerator) (w : World),
  console (snd (call_generateId (G := CachedIdGenerator_IdGenerator) n this w))
  = console w
  /\ clock_reads (snd (call_generateId (G := CachedIdGenerator_IdGenerator) n this w))
  = clock_reads w
  /\ uuid_calls w
  <= uuid_calls (snd (call_generateId (G := CachedIdGenerator_IdGenerator) n this w)).
Proof.
  induction n as [|n IH]; intros this w.
  - cbn [call_generateId snd]. repeat split. lia.
  - cbn [call_generateId generateId CachedIdGenerator_IdGenerator].
    destruct (generateId_cases this w)
    as [[_ ->] | [(rest & _ & ->) | (rest & x & _ & _ & ->)]];
    unfold fallback_outcome;
    match goal with
    | |- context [call_generateId n ?g ?w'] =>
    destruct (IH g w') as (H1 & H2 & H3);
    destruct (call_generateId n g w') as [[ids g2] w2]
    end;
    cbn [snd advance_uuid console clock_reads uuid_calls] in *;
    repeat split; try assumption; lia.
Qed.

Lemma table_rows_Trial (normalTimes cachedTimes : list float) :
  map Trial (table_rows normalTimes cachedTimes)
  = map (fun i => (Z.of_nat i + 1)%Z) (seq 0 (List.length normalTimes)).
Proof. unfold table_rows. rewrite map_map. reflexivity. Qed.

(** The outcome of [runExperiment]: it completes normally, and the world it
    leaves is the one the cached generator leaves after its calls, with the
    clock read twice per call and the table appended to the console. *)
Lemma runExperiment_shape (trials : Z) (w : World) :
  let n := Z.to_nat trials * Z.to_nat ID_COUNT in
  let this1 :=
  {| ID_POOL_SIZE := 1000000; idPool := fresh_pool (uuid_calls w) 1000000 |} in
  let w1 :=
  write_console (console_log "Running trials for Normal ID generation...")
  (advance_uuid (Z.to_nat 1000000) w) in
  let w2 :=
  write_console (console_log "Running trials for Cached ID generation...")
  (advance_clock (2 * n) (advance_uuid n w1)) in
  let wc := snd (call_generateId (G := CachedIdGenerator_IdGenerator) n this1 w2) in
  exists rows,
  runExperiment trials w
  = Normal (write_console (console_table rows) (advance_clock (2 * n) wc))
  /\ List.length rows = Z.to_nat trials
  /\ map Trial rows
  = map (fun i => (Z.of_nat i + 1)%Z) (seq 0 (Z.to_nat trials)).
Proof.
  intros n this1 w1 w2 wc.
  unfold runExperiment. rewrite CachedIdGenerator_new_eq.
  cbv beta iota zeta. unfold runTrials. fold this1 w1.
  destruct (runTrials_with_eq (G := NormalIdGenerator_IdGenerator)
  ID_COUNT tt trials w1 NormalIdGenerator_keeps_clock)
  as (gN & wN & EN & _).
  pose proof (runTrials_with_state NormalIdGenerator_clock_independent
  ID_COUNT tt trials w1) as [_ HwN].
  rewrite EN in HwN |- *. cbn [snd] in HwN.
  rewrite NormalIdGenerator_calls in HwN. cbn [snd] in HwN. fold n in HwN.
  subst wN. cbv beta iota. fold w2.
  destruct (runTrials_with_eq (G := CachedIdGenerator_IdGenerator)
  ID_COUNT this1 trials w2 CachedIdGenerator_keeps_clock)
  as (gC & wC & EC & _).
  pose proof (runTrials_with_state CachedIdGenerator_clock_independent
  ID_COUNT this1 trials w2) as [_ HwC].
  rewrite EC in HwC |- *. cbn [snd] in HwC. fold n in HwC. fold wc in HwC.
  subst wC. cbv beta iota.
  rewrite printComparisonTable_ok by (rewrite !length_map, !length_seq; lia).
  eexists. split; [reflexivity|]. split.
  - rewrite table_rows_length, length_map, length_seq. reflexivity.
  - rewrite table_rows_Trial, length_map, length_seq. reflexivity.
Qed.

(** ** Labels at the edges of the number line *)

Lemma toFixed_of_nan (x : float) (f : nat) :
  Prim2SF x = S754_nan -> Number_toFixed Number_toString x f = "NaN"%string.
Proof. intros H. unfold Number_toFixed. now rewrite H. Qed.

Lemma toFixed_of_infinity (x : float) (f : nat) :
  Prim2SF x = S754_infinity false ->
  Number_toFixed Number_toString x f = "Infinity"%string.
Proof. intros H. unfold Number_toFixed. now rewrite H. Qed.

Lemma differenceLabel_nan (q : float) :
  Prim2SF q = S754_nan -> differenceLabel q = "NaNx slower"%string.
Proof.
  intros Hq. unfold differenceLabel.
  rewrite FloatAxioms.ltb_spec, Hq.
  change (SFltb (Prim2SF 1) S754_nan) with false. cbv iota.
  rewrite (@toFixed_of_nan (1 / q)%float 2); [reflexivity|].
  rewrite FloatAxioms.div_spec, Hq. reflexivity.
Qed.

Lemma differenceLabel_infinity (q : float) :
  Prim2SF q = S754_infinity false -> differenceLabel q = "Infinityx faster"%string.
Proof.
  intros Hq. unfold differenceLabel.
  rewrite FloatAxioms.ltb_spec, Hq.
  change (SFltb (Prim2SF 1) (S754_infinity false)) with true. cbv iota.
  now rewrite (@toFixed_of_infinity q 2 Hq).
Qed.

Lemma differenceLabel_zero (q : float) :
  Prim2SF q = S754_zero false -> differenceLabel q = "Infinityx slower"%string.
Proof.
  intros Hq. unfold differenceLabel.
  rewrite FloatAxioms.ltb_spec, Hq.
  change (SFltb (Prim2SF 1) (S754_zero false)) with false. cbv iota.
  rewrite (@toFixed_of_infinity (1 / q)%float 2); [reflexivity|].
  rewrite FloatAxioms.div_spec, Hq. reflexivity.
Qed.

(** A number that is greater than zero is a positive finite number or
    positive infinity. *)
Lemma positive_cases (x : float) :
  (0 <? x)%float = true ->
  Prim2SF x = S754_infinity false
  \/ exists m e, Prim2SF x = S754_finite false m e.
Proof.
  rewrite FloatAxioms.ltb_spec. change (Prim2SF 0) with (S754_zero false).
  unfold SFltb, SFcompare.
  destruct (Prim2SF x) as [s | s | | s m e]; try discriminate;
  destruct s; try discriminate; intros _; [now left | right; now exists m, e].
Qed.

Lemma positive_over_zero (n : float) :
  (0 <? n)%float = true -> Prim2SF (n / 0)%float = S754_infinity false.
Proof.
  intros Hn. rewrite FloatAxioms.div_spec.
  change (Prim2SF 0) with (S754_zero false).
  destruct (positive_cases Hn) as [-> | (m & e & ->)]; reflexivity.
Qed.

Lemma zero_over_positive (c : float) :
  (0 <? c)%float = true -> Prim2SF (0 / c)%float = S754_zero false.
Proof.
  intros Hc. rewrite FloatAxioms.div_spec.
  change (Prim2SF 0) with (S754_zero false).
  destruct (positive_cases Hc) as [-> | (m & e & ->)]; reflexivity.
Qed.

Lemma over_nan (n : float) : Prim2SF (n / nan)%float = S754_nan.
Proof.
  rewrite FloatAxioms.div_spec. change (Prim2SF nan) with S754_nan.
  unfold SF64div, SFdiv. now destruct (Prim2SF n).
Qed.

Lemma nan_over (c : float) : Prim2SF (nan / c)%float = S754_nan.
Proof.
  rewrite FloatAxioms.div_spec. change (Prim2SF nan) with S754_nan. reflexivity.
Qed.

(** ** Further properties of the program *)


(** X2. [n] calls of the normal generator return the next [n] values of
    [uuidv4], in order, and leave the world with [n] more identifiers
    generated and nothing else changed; the identifiers are pairwise distinct
    when [uuidv4] never repeats a value. *)
Theorem X2_normal_generator_returns_the_stream (n : nat) (w : World) :
  uuid_distinct ->
  call_generateId (G := NormalIdGenerator_IdGenerator) n tt w
  = (map uuid_stream (seq (uuid_calls w) n), tt, advance_uuid n w)
  /\ NoDup (fst (fst (call_generateId (G := NormalIdGenerator_IdGenerator) n tt w))).
Proof.
  intros Hd. rewrite NormalIdGenerator_calls. split; [reflexivity|].
  cbn [fst]. apply Finite.Injective_map_NoDup; [exact Hd | apply seq_NoDup].
Qed.

(** X3. [runTrials] calls [generateId] exactly [trials * ID_COUNT] times,
    one after the other, and reads the clock twice per call: for a generator
    that does not depend on the clock, the generator and the world it leaves
    are those left by that many consecutive calls, with the clock read
    [2 * trials * ID_COUNT] more times. *)
Theorem X3_runTrials_makes_trials_times_count_calls {S} (G : IdGenerator S)
  (N : Z) (g : S) (T : Z) (w : World) :
  clock_independent G ->
  let calls := call_generateId (Z.to_nat T * Z.to_nat N) g w in
  snd (fst (runTrials_with N g T w)) = snd (fst calls)
  /\ snd (runTrials_with N g T w)
  = advance_clock (2 * (Z.to_nat T * Z.to_nat N)) (snd calls)
  /\ snd (runTrials g T w)
  = advance_clock (2 * (Z.to_nat T * Z.to_nat ID_COUNT))
  (snd (call_generateId (Z.to_nat T * Z.to_nat ID_COUNT) g w)).
Proof.
  intros Hi calls.
  destruct (runTrials_with_state Hi N g T w) as [H1 H2].
  destruct (runTrials_with_state Hi ID_COUNT g T w) as [_ H3].
  repeat split; assumption.
Qed.

(** X4. [runExperiment] never throws, whatever the trial count: the two
    sequences of means it compares have the same length.  It writes its two
    messages and then one table with one row per trial, numbered from 1, and
    reads the clock four times per trial and call (twice for each generator);
    at least the pool and one identifier per normal call are generated. *)
Theorem X4_runExperiment_completes (trials : Z) (w : World) :
  exists rows w',
  runExperiment trials w = Normal w'
  /\ console w'
  = console w
  ++ [console_log "Running trials for Normal ID generation...";
  console_log "Running trials for Cached ID generation...";
  console_table rows]
  /\ List.length rows = Z.to_nat trials
  /\ map Trial rows = map (fun i => (Z.of_nat i + 1)%Z) (seq 0 (Z.to_nat trials))
  /\ clock_reads w'
  = clock_reads w + 4 * (Z.to_nat trials * Z.to_nat ID_COUNT)
  /\ uuid_calls w + Z.to_nat 1000000 + Z.to_nat trials * Z.to_nat ID_COUNT
  <= uuid_calls w'.
Proof.
  destruct (runExperiment_shape trials w) as (rows & Heq & Hlen & Htrial).
  cbv zeta in Heq.
  match type of Heq with
  | context [call_generateId ?n ?g ?w2] =>
  destruct (CachedIdGenerator_calls_frame n g w2) as (Hc & Hk & Hu)
  end.
  eexists rows, _. split; [exact Heq|].
  cbn [write_console advance_clock advance_uuid console clock_reads uuid_calls]
  in Hc, Hk, Hu |- *.
  rewrite Hc, Hk.
  repeat split; try assumption; try lia; now rewrite <- !app_assoc.
Qed.

(** X5. With between 0 and 10 trials the benchmark never measures a
    regeneration: the cached generator is asked for at most as many
    identifiers as its pool of 1000000 holds, so during its timed calls
    nothing is generated.  In the whole run [uuidv4] is called exactly
    1000000 times for the pool plus once per call of the normal generator. *)
Theorem X5_no_regeneration_within_ten_trials (trials : Z) (w : World) :
  (0 <= trials <= 10)%Z -> uuid_nonempty ->
  exists rows w',
  runExperiment trials w = Normal w'
  /\ uuid_calls w'
  = uuid_calls w + Z.to_nat 1000000 + Z.to_nat trials * Z.to_nat ID_COUNT
  /\ clock_reads w'
  = clock_reads w + 4 * (Z.to_nat trials * Z.to_nat ID_COUNT)
  /\ console w'
  = console w
  ++ [console_log "Running trials for Normal ID generation...";
  console_log "Running trials for Cached ID generation...";
  console_table rows]
  /\ List.length rows = Z.to_nat trials.
Proof.
  intros Ht Hne.
  destruct (runExperiment_shape trials w) as (rows & Heq & Hlen & _).
  cbv zeta in Heq.
  set (n := Z.to_nat trials * Z.to_nat ID_COUNT) in *.
  set (pool := fresh_pool (uuid_calls w) 1000000) in *.
  assert (Hn : n <= Z.to_nat 1000000) by (subst n; unfold ID_COUNT; lia).
  assert (Hsplit : pool = firstn (Z.to_nat 1000000 - n) pool
                          ++ skipn (Z.to_nat 1000000 - n) pool)
    by (symmetry; apply firstn_skipn).
  assert (Htaken : List.length (skipn (Z.to_nat 1000000 - n) pool) = n).
  { rewrite length_skipn. subst pool. rewrite fresh_pool_length. lia. }
  assert (Hall : Forall (fun s => s <> ""%string)
                        (skipn (Z.to_nat 1000000 - n) pool)).
  { apply Forall_forall. intros s Hs.
    assert (Hin : In s pool)
      by (rewrite Hsplit; apply in_or_app; now right).
    pose proof (fresh_pool_nonempty_strings (uuid_calls w) 1000000 Hne) as Hp.
    rewrite Forall_forall in Hp. now apply Hp. }
  match type of Heq with
  | context [call_generateId n ?g ?w2] =>
      assert (Hcalls :
                snd (call_generateId (G := CachedIdGenerator_IdGenerator) n g w2)
                = w2)
  end.
  { rewrite Hsplit at 1. rewrite <- Htaken at 1.
    rewrite drain_pool_partial by exact Hall. reflexivity. }
  rewrite Hcalls in Heq.
  eexists rows, _. split; [exact Heq|].
  cbn [write_console advance_clock advance_uuid console clock_reads uuid_calls].
  repeat split; try assumption; try lia; now rewrite <- !app_assoc.
Qed.

Lemma map_nth_seq {A B} (f : A -> B) (l : list A) (d : A) (k : nat) :
  k <= List.length l ->
  map (fun i => f (nth i l d)) (seq 0 k) = map f (firstn k l).
Proof.
  intros Hk.
  apply nth_ext with (d := f d) (d' := f d).
  - rewrite !length_map, length_seq, length_firstn. lia.
  - intros i Hi. rewrite length_map, length_seq in Hi.
    rewrite (map_nth f (firstn k l) d i).
    rewrite (nth_indep _ (f d) (f (nth 0 l d)))
    by (rewrite length_map, length_seq; exact Hi).
    rewrite (map_nth (fun i => f (nth i l d)) (seq 0 k) 0 i).
    rewrite seq_nth by exact Hi. cbn [Nat.add]. f_equal.
    rewrite <- (firstn_skipn k l) at 1.
    rewrite app_nth1 by (rewrite length_firstn; lia). reflexivity.
Qed.

(** X6. When there is a candidate mean for every baseline mean,
    [printComparisonTable] appends one table to the console and changes
    nothing else; its rows are numbered 1, 2, ... in the order of the input,
    and the two text columns are the means with two decimals and the unit
    suffix.  Candidate means beyond the number of baseline means play no
    part. *)
Theorem X6_table_rows_follow_the_input
  (normalTimes cachedTimes : list float) (w : World) :
  List.length normalTimes <= List.length cachedTimes ->
  exists rows,
  printComparisonTable normalTimes cachedTimes w
  = Normal {| uuid_calls := uuid_calls w;
  clock_reads := clock_reads w;
  console := console w ++ [console_table rows] |}
  /\ map Trial rows
  = map (fun i => (Z.of_nat i + 1)%Z) (seq 0 (List.length normalTimes))
  /\ map Normal_ID_Generation rows
  = map (fun n => (Number_toFixed Number_toString n 2 ++ "µs")%string)
  normalTimes
  /\ map Cached_ID_Generation rows
  = map (fun c => (Number_toFixed Number_toString c 2 ++ "µs")%string)
  (firstn (List.length normalTimes) cachedTimes).
Proof.
  intros Hlen. exists (table_rows normalTimes cachedTimes).
  split; [now apply printComparisonTable_ok|].
  split; [apply table_rows_Trial|]. unfold table_rows. rewrite !map_map.
  cbn [Normal_ID_Generation Cached_ID_Generation make_row]. split.
  - rewrite (map_nth_seq
    (fun n => (Number_toFixed Number_toString n 2 ++ "µs")%string)
    normalTimes nan (Nat.le_refl _)).
    now rewrite firstn_all.
  - now rewrite (map_nth_seq
    (fun c => (Number_toFixed Number_toString c 2 ++ "µs")%string)
    cachedTimes nan Hlen).
Qed.

(** X7. The label when a mean is zero or not a number.  A positive
    baseline against a candidate mean of zero reads "Infinityx faster"; a
    baseline of zero against a positive candidate reads "Infinityx slower";
    and when either mean is NaN, or both are zero, the label is
    "NaNx slower". *)
Theorem X7_labels_for_zero_and_NaN_means (n c : float) :
  ((0 <? n)%float = true ->
  differenceLabel (n / 0)%float = "Infinityx faster"%string)
  /\ ((0 <? c)%float = true ->
  differenceLabel (0 / c)%float = "Infinityx slower"%string)
  /\ differenceLabel (n / nan)%float = "NaNx slower"%string
  /\ differenceLabel (nan / c)%float = "NaNx slower"%string
  /\ differenceLabel (0 / 0)%float = "NaNx slower"%string.
Proof.
  split; [|split; [|split; [|split]]].
  - intros Hn. apply differenceLabel_infinity. now apply positive_over_zero.
  - intros Hc. apply differenceLabel_zero. now apply zero_over_positive.
  - apply differenceLabel_nan, over_nan.
  - apply differenceLabel_nan, nan_over.
  - reflexivity.
Qed.

(** X8. [regenerateIdPool] discards whatever the pool held: its outcome
    depends only on [ID_POOL_SIZE] and on the identifiers [uuidv4] hands out
    next.  It calls [uuidv4] once per pool entry, and with a pool size of zero
    or less it empties the pool and generates nothing. *)
Theorem X8_regenerateIdPool_discards_the_old_pool
  (this : CachedIdGenerator) (old : list string) (w : World) :
  CachedIdGenerator_regenerateIdPool (set_idPool this old) w
  = CachedIdGenerator_regenerateIdPool this w
  /\ List.length (idPool (fst (CachedIdGenerator_regenerateIdPool this w)))
  = Z.to_nat (ID_POOL_SIZE this)
  /\ uuid_calls (snd (CachedIdGenerator_regenerateIdPool this w))
  = uuid_calls w + Z.to_nat (ID_POOL_SIZE this)
  /\ ((ID_POOL_SIZE this <= 0)%Z ->
  CachedIdGenerator_regenerateIdPool this w = (set_idPool this [], w)).
Proof.
  rewrite !regenerateIdPool_eq. cbn [set_idPool ID_POOL_SIZE idPool fst snd].
  split; [reflexivity|]. split; [apply fresh_pool_length|].
  split; [reflexivity|].
  intros Hsz. unfold fresh_pool.
  replace (Z.to_nat (ID_POOL_SIZE this)) with 0 by lia.
  cbn [seq map]. now rewrite advance_uuid_0.
Qed.

(** X9. The pool is served last in, first out, and serving from it costs
    nothing: as many calls as there are non-empty identifiers at the end of
    the pool return exactly those, the last one first, remove them from the
    pool, and leave the world untouched. *)
Theorem X9_pool_is_served_last_in_first_out
  (size : Z) (kept taken : list string) (w : World) :
  Forall (fun s => s <> ""%string) taken ->
  call_generateId (G := CachedIdGenerator_IdGenerator) (List.length taken)
  {| ID_POOL_SIZE := size; idPool := kept ++ taken |} w
  = (rev taken, {| ID_POOL_SIZE := size; idPool := kept |}, w).
Proof. apply drain_pool_partial. Qed.

(** X10. Timing the cached generator while its pool lasts: when the pool
    ends with [trials * ID_COUNT] non-empty identifiers, [runTrials] consumes
    exactly those, generates no identifier, and leaves the world changed only
    by its [2 * trials * ID_COUNT] clock readings. *)
Theorem X10_runTrials_within_the_pool
  (N T : Z) (size : Z) (kept taken : list string) (w : World) :
  List.length taken = Z.to_nat T * Z.to_nat N ->
  Forall (fun s => s <> ""%string) taken ->
  snd (fst (runTrials_with (G := CachedIdGenerator_IdGenerator) N
  {| ID_POOL_SIZE := size; idPool := kept ++ taken |} T w))
  = {| ID_POOL_SIZE := size; idPool := kept |}
  /\ snd (runTrials_with (G := CachedIdGenerator_IdGenerator) N
  {| ID_POOL_SIZE := size; idPool := kept ++ taken |} T w)
  = advance_clock (2 * (Z.to_nat T * Z.to_nat N)) w.
Proof.
  intros Hlen Hall.
  destruct (runTrials_with_state CachedIdGenerator_clock_independent N
  {| ID_POOL_SIZE := size; idPool := kept ++ taken |} T w)
  as [H1 H2].
  rewrite H1, H2, <- Hlen, drain_pool_partial by exact Hall.
  split; reflexivity.
Qed.

(** X11. A call of the cached generator never reads the clock and never
    writes to the console, and the number of identifiers generated never goes
    down; the same holds for any number of calls. *)
Theorem X11_cached_generator_frame
  (n : nat) (this : CachedIdGenerator) (w : World) :
  console (snd (call_generateId (G := CachedIdGenerator_IdGenerator) n this w))
  = console w
  /\ clock_reads (snd (call_generateId (G := CachedIdGenerator_IdGenerator) n this w))
  = clock_reads w
  /\ uuid_calls w
  <= uuid_calls (snd (call_generateId (G := CachedIdGenerator_IdGenerator) n this w))
  /\ ID_POOL_SIZE
  (snd (fst (call_generateId (G := CachedIdGenerator_IdGenerator) n this w)))
  = ID_POOL_SIZE this.
Proof.
  destruct (CachedIdGenerator_calls_frame n this w) as (H1 & H2 & H3).
  repeat split; try assumption.
  revert this w H1 H2 H3. induction n as [|n IH]; intros this w _ _ _.
  - reflexivity.
  - cbn [call_generateId generateId CachedIdGenerator_IdGenerator].
    destruct (generateId_cases this w)
    as [[_ ->] | [(rest & _ & ->) | (rest & x & _ & _ & ->)]];
    unfold fallback_outcome;
    match goal with
    | |- context [call_generateId n ?g ?w'] =>
    destruct (CachedIdGenerator_calls_frame n g w') as (H1 & H2 & H3);
    specialize (IH g w' H1 H2 H3);
    destruct (call_generateId n g w') as [[ids g2] w2]
    end; cbn [fst snd] in *; rewrite IH; reflexivity.
Qed.

(** X12. A full cycle of a fresh generator with a pool of [C > 0]
    identifiers: the first [C] calls return the first pool, last identifier
    first; the next call finds the pool empty, fills it again and returns an
    identifier generated after the new pool; the [C] calls after that return
    the second pool, last identifier first, and leave the pool empty again.
    So one identifier in [C + 1] is generated at the call that returns it. *)
Theorem X12_two_pools_and_one_direct_identifier (C : Z) (w : World) :
  (0 < C)%Z -> uuid_nonempty ->
  let n := Z.to_nat C in
  let k := uuid_calls w in
  call_generateId (G := CachedIdGenerator_IdGenerator) (n + (1 + n))
  (fst (CachedIdGenerator_init C w)) (snd (CachedIdGenerator_init C w))
  = (rev (map uuid_stream (seq k n))
  ++ uuid_stream (k + n + n) :: rev (map uuid_stream (seq (k + n) n)),
  {| ID_POOL_SIZE := C; idPool := [] |},
  advance_uuid (n + (n + 1)) w).
Proof.
  intros Hpos Hne n k.
  unfold CachedIdGenerator_init. rewrite regenerateIdPool_eq.
  unfold set_idPool. cbn [fst snd ID_POOL_SIZE].
  rewrite call_generateId_app.
  assert (Hfirst :
  call_generateId (G := CachedIdGenerator_IdGenerator) n
  {| ID_POOL_SIZE := C; idPool := fresh_pool k C |} (advance_uuid n w)
  = (rev (fresh_pool k C), {| ID_POOL_SIZE := C; idPool := [] |},
  advance_uuid n w)).
  { subst n. rewrite <- (fresh_pool_length k C) at 1.
    apply drain_pool. now apply fresh_pool_nonempty_strings. }
  fold n k. rewrite Hfirst. cbn [fst snd].
  cbn [Nat.add call_generateId generateId CachedIdGenerator_IdGenerator].
  rewrite generateId_fallback by (left; reflexivity).
  unfold fallback_outcome, set_idPool.
  cbn [ID_POOL_SIZE advance_uuid uuid_calls]. fold n k.
  assert (Hsecond :
  call_generateId (G := CachedIdGenerator_IdGenerator) n
  {| ID_POOL_SIZE := C; idPool := fresh_pool (k + n) C |}
  (advance_uuid (n + 1) (advance_uuid n w))
  = (rev (fresh_pool (k + n) C), {| ID_POOL_SIZE := C; idPool := [] |},
  advance_uuid (n + 1) (advance_uuid n w))).
  { subst n. rewrite <- (fresh_pool_length (k + Z.to_nat C) C) at 1.
    apply drain_pool. now apply fresh_pool_nonempty_strings. }
  change ({| uuid_calls := uuid_calls w + n + (n + 1);
  clock_reads := clock_reads w; console := console w |})
  with (advance_uuid (n + 1) (advance_uuid n w)).
  rewrite Hsecond. rewrite advance_uuid_add. reflexivity.
Qed.

Lemma calls_beyond_the_pool (C : Z) (k n : nat) (w : World) :
  uuid_nonempty -> Z.to_nat C < n ->
  uuid_calls w + Z.to_nat C + 1
  <= uuid_calls (snd (call_generateId (G := CachedIdGenerator_IdGenerator) n
  {| ID_POOL_SIZE := C; idPool := fresh_pool k C |} w)).
Proof.
  intros Hne Hn.
  replace n with (Z.to_nat C + Datatypes.S (n - Z.to_nat C - 1)) by lia.
  rewrite call_generateId_app.
  assert (Hfirst :
  call_generateId (G := CachedIdGenerator_IdGenerator) (Z.to_nat C)
  {| ID_POOL_SIZE := C; idPool := fresh_pool k C |} w
  = (rev (fresh_pool k C), {| ID_POOL_SIZE := C; idPool := [] |}, w)).
  { rewrite <- (fresh_pool_length k C) at 1.
    apply drain_pool. now apply fresh_pool_nonempty_strings. }
  rewrite Hfirst. cbn [fst snd].
  cbn [call_generateId generateId CachedIdGenerator_IdGenerator].
  rewrite generateId_fallback by (left; reflexivity).
  unfold fallback_outcome. cbn [ID_POOL_SIZE].
  match goal with
  | |- context [call_generateId ?r ?g ?w3] =>
  destruct (CachedIdGenerator_calls_frame r g w3) as (_ & _ & Hu);
  destruct (call_generateId r g w3) as [[ids g2] w4]
  end.
  cbn [snd advance_uuid uuid_calls] in Hu |- *. lia.
Qed.

(** X13. With eleven trials or more the cached generator is asked for more
    identifiers than its pool holds, so a regeneration happens inside the
    timed calls: in the whole run [uuidv4] is called at least for two pools,
    for the identifier returned by the call that found the pool empty, and
    once per call of the normal generator. *)
Theorem X13_regeneration_is_timed_from_eleven_trials (trials : Z) (w : World) :
  (11 <= trials)%Z -> uuid_nonempty ->
  exists w',
  runExperiment trials w = Normal w'
  /\ uuid_calls w + 2 * Z.to_nat 1000000 + 1 + Z.to_nat trials * Z.to_nat ID_COUNT
  <= uuid_calls w'.
Proof.
  intros Ht Hne.
  destruct (runExperiment_shape trials w) as (rows & Heq & _ & _).
  cbv zeta in Heq.
  assert (Hn : Z.to_nat 1000000 < Z.to_nat trials * Z.to_nat ID_COUNT)
  by (unfold ID_COUNT; lia).
  match type of Heq with
  | context [call_generateId ?n ?g ?w2] =>
  pose proof (@calls_beyond_the_pool 1000000 (uuid_calls w) n w2 Hne Hn) as Hcalls
  end.
  eexists. split; [exact Heq|].
  cbn [write_console advance_clock advance_uuid console clock_reads uuid_calls]
  in Hcalls |- *.
  lia.
Qed.

End Program.

(** * The program on concrete inputs *)

Lemma sample_uuid_nonempty : uuid_nonempty sample_uuid.
Proof. intros n. unfold sample_uuid. discriminate. Qed.

Lemma sample_uuid_distinct : uuid_distinct sample_uuid.
Proof.
  intros a b H. unfold sample_uuid in H. cbn [String.append] in H.
  injection H as H.
  apply DecimalNat.Unsigned.to_uint_inj.
  assert (Hs : Some (Nat.to_uint a) = Some (Nat.to_uint b))
    by (rewrite <- !NilEmpty.usu; now rewrite H).
  now injection Hs.
Qed.

Lemma C1_witness :
  CachedIdGenerator_generateId sample_uuid
    {| ID_POOL_SIZE := 3; idPool := [] |} world0
  = ("id-3"%string,
     {| ID_POOL_SIZE := 3; idPool := ["id-0"; "id-1"; "id-2"]%string |},
     {| uuid_calls := 4; clock_reads := 0; console := [] |}).
Proof.
  exact (proj1 (@C1_empty_pool_regenerates_and_returns_fresh sample_uuid
                  {| ID_POOL_SIZE := 3; idPool := [] |} world0 eq_refl)).
Defined.

Lemma C2_witness :
  CachedIdGenerator_generateId sample_uuid
    {| ID_POOL_SIZE := 2; idPool := ["id-0"; "id-1"]%string |}
    {| uuid_calls := 3; clock_reads := 0; console := [] |}
  = ("id-1"%string,
     {| ID_POOL_SIZE := 2; idPool := ["id-0"%string] |},
     {| uuid_calls := 3; clock_reads := 0; console := [] |}).
Proof.
  exact (proj2 (proj2
    (@C2_regeneration_completes_within_the_call sample_uuid
       {| ID_POOL_SIZE := 2; idPool := [] |} world0
       "id-2"%string
       {| ID_POOL_SIZE := 2; idPool := ["id-0"; "id-1"]%string |}
       {| uuid_calls := 3; clock_reads := 0; console := [] |}
       eq_refl eq_refl sample_uuid_nonempty eq_refl))).
Defined.

(** The call that follows the one that found the pool of one million empty
    pops its identifier from the regenerated pool, and generates nothing. *)
Lemma C2_counterexample :
  let this0 := {| ID_POOL_SIZE := 1000000; idPool := [] |} in
  let n := Z.to_nat 1000000 in
  let this1 :=
    {| ID_POOL_SIZE := 1000000; idPool := fresh_pool sample_uuid 0 1000000 |} in
  let w1 := advance_uuid (n + 1) world0 in
  CachedIdGenerator_generateId sample_uuid this0 world0
  = (sample_uuid (0 + n), this1, w1)
  /\ idPool this1 <> []
  /\ Array_pop (idPool this1)
     = (Some (sample_uuid (0 + n - 1)), map sample_uuid (seq 0 (n - 1)))
  /\ CachedIdGenerator_generateId sample_uuid this1 w1
     = (sample_uuid (0 + n - 1),
        {| ID_POOL_SIZE := 1000000; idPool := map sample_uuid (seq 0 (n - 1)) |},
        w1).
Proof.
  intros this0 n this1 w1.
  assert (Hpos : (0 < ID_POOL_SIZE this0)%Z) by reflexivity.
  destruct (@generateId_after_exhaustion sample_uuid this0 world0
              eq_refl Hpos sample_uuid_nonempty) as (H1 & H2 & H3).
  split; [exact H1|]. split; [|split].
  - intros Hnil. change (idPool this1) with
      (idPool (set_idPool this0 (fresh_pool sample_uuid (uuid_calls world0)
                                   (ID_POOL_SIZE this0)))) in Hnil.
    rewrite H2 in Hnil. now destruct (map sample_uuid (seq 0 (n - 1))).
  - change (idPool this1) with
      (idPool (set_idPool this0 (fresh_pool sample_uuid (uuid_calls world0)
                                   (ID_POOL_SIZE this0)))).
    rewrite H2. apply Array_pop_push.
  - exact H3.
Qed.

Lemma C3_witness :
  let this :=
    {| ID_POOL_SIZE := 1000000;
       idPool := fresh_pool sample_uuid (uuid_calls world0) 1000000 |} in
  (0 <= Z.of_nat (List.length (idPool this)) <= ID_POOL_SIZE this)%Z.
Proof.
  intros this.
  exact (proj1 (@C3_pool_size_invariant sample_uuid this
                  (advance_uuid (Z.to_nat 1000000) world0)
                  sample_uuid_nonempty
                  (reachable_after_new sample_uuid world0))).
Defined.

Lemma C4_witness :
  call_generateId (G := CachedIdGenerator_IdGenerator sample_uuid) 3
    {| ID_POOL_SIZE := 3; idPool := ["id-0"; "id-1"; "id-2"]%string |}
    {| uuid_calls := 3; clock_reads := 0; console := [] |}
  = (["id-2"; "id-1"; "id-0"]%string,
     {| ID_POOL_SIZE := 3; idPool := [] |},
     {| uuid_calls := 3; clock_reads := 0; console := [] |}).
Proof.
  exact (proj1
    (@C4_fresh_generator_serves_capacity_then_falls_back sample_uuid 3 world0
       {| ID_POOL_SIZE := 3; idPool := ["id-0"; "id-1"; "id-2"]%string |}
       {| uuid_calls := 3; clock_reads := 0; console := [] |}
       eq_refl sample_uuid_distinct sample_uuid_nonempty eq_refl)).
Defined.

(** Two trials of three calls of the normal generator, each call one
    millisecond long: two means of 1000 microseconds, six identifiers
    generated, twelve clock readings. *)
Lemma C5_witness :
  runTrials_with sample_clock 3
    (G := NormalIdGenerator_IdGenerator sample_uuid) tt 2 world0
  = ([1000%float; 1000%float], tt,
     {| uuid_calls := 6; clock_reads := 12; console := [] |})
  /\ fst (fst (runTrials_with sample_clock 3
                 (G := NormalIdGenerator_IdGenerator sample_uuid) tt 2 world0))
     = map (fun i => mean (trial_durations sample_clock 0 3 i)) [0; 1].
Proof.
  split.
  - exact (proj1
      (@C5_runTrials_returns_trial_means sample_clock unit
         (NormalIdGenerator_IdGenerator sample_uuid) tt 2 3 world0)).
  - exact (proj1 (proj2 (proj2 (proj2
      (@C5_runTrials_returns_trial_means sample_clock unit
         (NormalIdGenerator_IdGenerator sample_uuid) tt 2 3 world0)))
      (NormalIdGenerator_keeps_clock sample_uuid))).
Defined.

Lemma C6_witness :
  differenceLabel sample_toString (7 / 7)%float = "1.00x slower"%string.
Proof.
  exact (proj2 (proj2 (proj2
    (@C6_label_from_computed_quotient sample_toString
       [10%float; 5%float; 7%float] [5%float; 10%float; 7%float] world0
       2 7%float 7%float (le_n 3) eq_refl eq_refl))) eq_refl).
Defined.

(** Baseline 8 against candidate 99: the program prints 12.37x slower, the
    reciprocal of the rounded quotient 8/99, where the ratio 99/8 = 12.375
    formats as 12.38. *)
Lemma C6_counterexample :
  printComparisonTable sample_toString [8%float] [99%float] world0
  = Normal
      {| uuid_calls := 0; clock_reads := 0;
         console :=
           [console_table
              [{| Trial := 1;
                  Normal_ID_Generation := "8.00µs";
                  Cached_ID_Generation := "99.00µs";
                  Difference := "12.37x slower" |}]] |}
  /\ label_by_ratio sample_toString 8 99 = "12.38x slower"%string.
Proof. split; reflexivity. Qed.

Lemma C7_witness :
  runExperiment sample_uuid sample_clock sample_toString (-3) world0
  = Normal
      (write_console (console_table [])
         (write_console (console_log "Running trials for Cached ID generation...")
            (write_console (console_log "Running trials for Normal ID generation...")
               (advance_uuid (Z.to_nat 1000000) world0)))).
Proof.
  refine (proj1 (@C7_nonpositive_counts_are_accepted sample_uuid sample_clock
                   sample_toString (-3) world0 _)).
  discriminate.
Defined.

(** A trial count of zero is accepted: the run completes normally and
    prints an empty table. *)
Lemma C7_counterexample :
  runExperiment sample_uuid sample_clock sample_toString 0 world0
  = Normal
      {| uuid_calls := Z.to_nat 1000000; clock_reads := 0;
         console :=
           [console_log "Running trials for Normal ID generation...";
            console_log "Running trials for Cached ID generation...";
            console_table []] |}
  /\ runTrials sample_clock (G := NormalIdGenerator_IdGenerator sample_uuid)
       tt 0 world0
     = ([], tt, world0).
Proof.
  split.
  - rewrite runExperiment_nonpositive by apply Z.le_refl. reflexivity.
  - unfold runTrials. apply runTrials_with_nonpositive. apply Z.le_refl.
Qed.

Lemma C9_witness :
  CachedIdGenerator_generateId sample_uuid
    {| ID_POOL_SIZE := 2; idPool := ["a"; ""]%string |} world0
  = ("id-2"%string,
     {| ID_POOL_SIZE := 2; idPool := ["id-0"; "id-1"]%string |},
     {| uuid_calls := 3; clock_reads := 0; console := [] |}).
Proof.
  exact (proj1
    (@C9_falsy_pop_is_treated_as_exhaustion sample_uuid
       {| ID_POOL_SIZE := 2; idPool := ["a"; ""]%string |} world0)
    (or_intror (ex_intro _ ["a"%string] eq_refl))).
Defined.

Lemma C10_witness :
  printComparisonTable sample_toString [10%float; 5%float] [5%float] world0
  = Throw toFixed_TypeError.
Proof.
  exact (proj2
    (@C10_one_row_per_baseline_or_TypeError sample_toString
       [10%float; 5%float] [5%float] world0) (le_n 2)).
Defined.

(** With one baseline mean and no candidate mean the call throws; no row is
    built from the missing value. *)
Lemma C10_counterexample :
  printComparisonTable sample_toString [10%float] [] world0
  = Throw (TypeError "Cannot read properties of undefined (reading 'toFixed')").
Proof. reflexivity. Qed.


Lemma X2_witness :
  call_generateId (G := NormalIdGenerator_IdGenerator sample_uuid) 3 tt world0
  = (["id-0"; "id-1"; "id-2"]%string, tt,
     {| uuid_calls := 3; clock_reads := 0; console := [] |}).
Proof.
  exact (proj1 (@X2_normal_generator_returns_the_stream sample_uuid 3 world0
                  sample_uuid_distinct)).
Defined.

Lemma X3_witness :
  snd (runTrials_with sample_clock 3
         (G := NormalIdGenerator_IdGenerator sample_uuid) tt 2 world0)
  = {| uuid_calls := 6; clock_reads := 12; console := [] |}.
Proof.
  exact (proj1 (proj2
    (@X3_runTrials_makes_trials_times_count_calls sample_clock unit
       (NormalIdGenerator_IdGenerator sample_uuid) 3 tt 2 world0
       (NormalIdGenerator_clock_independent sample_uuid)))).
Defined.

(** The program as it is run: [runExperiment(5)]. *)
Lemma X5_witness :
  exists rows w',
    main sample_uuid sample_clock sample_toString world0 = Normal w'
    /\ uuid_calls w' = uuid_calls world0 + Z.to_nat 1000000 + Z.to_nat 5 * Z.to_nat ID_COUNT
    /\ clock_reads w' = clock_reads world0 + 4 * (Z.to_nat 5 * Z.to_nat ID_COUNT)
    /\ console w'
       = console world0
         ++ [console_log "Running trials for Normal ID generation...";
             console_log "Running trials for Cached ID generation...";
             console_table rows]
    /\ List.length rows = Z.to_nat 5.
Proof.
  unfold main.
  apply (@X5_no_regeneration_within_ten_trials sample_uuid sample_clock
           sample_toString 5 world0).
  - split; discriminate.
  - exact sample_uuid_nonempty.
Defined.

Lemma X6_witness :
  exists rows,
    printComparisonTable sample_toString
      [10%float; 5%float] [5%float; 10%float; 7%float] world0
    = Normal {| uuid_calls := 0; clock_reads := 0;
                console := [console_table rows] |}
    /\ map Trial rows = [1; 2]%Z
    /\ map Normal_ID_Generation rows = ["10.00µs"; "5.00µs"]%string
    /\ map Cached_ID_Generation rows = ["5.00µs"; "10.00µs"]%string.
Proof.
  exact (@X6_table_rows_follow_the_input sample_toString
           [10%float; 5%float] [5%float; 10%float; 7%float] world0
           (le_S _ _ (le_n 2))).
Defined.

Lemma X7_witness :
  differenceLabel sample_toString (5 / 0)%float = "Infinityx faster"%string.
Proof.
  exact (proj1 (@X7_labels_for_zero_and_NaN_means sample_toString 5%float 5%float)
           eq_refl).
Defined.

Lemma X8_witness :
  CachedIdGenerator_regenerateIdPool sample_uuid
    {| ID_POOL_SIZE := 0; idPool := ["a"%string] |} world0
  = ({| ID_POOL_SIZE := 0; idPool := [] |}, world0).
Proof.
  exact (proj2 (proj2 (proj2
    (@X8_regenerateIdPool_discards_the_old_pool sample_uuid
       {| ID_POOL_SIZE := 0; idPool := ["a"%string] |} [] world0)))
    (Z.le_refl 0)).
Defined.

Lemma X9_witness :
  call_generateId (G := CachedIdGenerator_IdGenerator sample_uuid) 2
    {| ID_POOL_SIZE := 5; idPool := ["a"; "b"; "c"]%string |} world0
  = (["c"; "b"]%string, {| ID_POOL_SIZE := 5; idPool := ["a"%string] |}, world0).
Proof.
  apply (@X9_pool_is_served_last_in_first_out sample_uuid 5
           ["a"%string] ["b"; "c"]%string world0).
  repeat constructor; discriminate.
Defined.

Lemma X10_witness :
  snd (runTrials_with sample_clock 1
         (G := CachedIdGenerator_IdGenerator sample_uuid)
         {| ID_POOL_SIZE := 5; idPool := ["a"; "b"; "c"]%string |} 2 world0)
  = {| uuid_calls := 0; clock_reads := 4; console := [] |}.
Proof.
  refine (proj2
    (@X10_runTrials_within_the_pool sample_uuid sample_clock 1 2 5
       ["a"%string] ["b"; "c"]%string world0 eq_refl _)).
  repeat constructor; discriminate.
Defined.

Lemma X12_witness :
  call_generateId (G := CachedIdGenerator_IdGenerator sample_uuid) 5
    (fst (CachedIdGenerator_init sample_uuid 2 world0))
    (snd (CachedIdGenerator_init sample_uuid 2 world0))
  = (["id-1"; "id-0"; "id-4"; "id-3"; "id-2"]%string,
     {| ID_POOL_SIZE := 2; idPool := [] |},
     {| uuid_calls := 5; clock_reads := 0; console := [] |}).
Proof.
  exact (@X12_two_pools_and_one_direct_identifier sample_uuid 2 world0
           eq_refl sample_uuid_nonempty).
Defined.

Lemma X13_witness :
  exists w',
    runExperiment sample_uuid sample_clock sample_toString 11 world0 = Normal w'
    /\ uuid_calls world0 + 2 * Z.to_nat 1000000 + 1 + Z.to_nat 11 * Z.to_nat ID_COUNT
       <= uuid_calls w'.
Proof.
  exact (@X13_regeneration_is_timed_from_eleven_trials sample_uuid sample_clock
           sample_toString 11 world0 (Z.le_refl 11) sample_uuid_nonempty).
Defined.
